(** * multi-task-conveyor: the job/task engine of MultiThreadTask.h

    The engine ([MultiTask]) owns a pool of worker threads that drain one
    shared deque of tasks.  A job is registered with [push_job], which starts
    a detached driver thread ([process_job]); the driver runs the job's
    production step ([Job::process], which calls [push_task]), marks the job
    as "all tasks pushed", waits until the job's atomic counter of running
    tasks is back to zero, runs [process_after_done] and only then raises the
    job's "done" flag.

    The threads are modelled by an interleaving semantics: every thread has a
    program counter, one [event] is one atomic piece of a thread (a critical
    section under [m_task_queue_mutex] or [m_job_map_mutex], one atomic
    operation on a job, or one call into client code), and [exec] runs one
    event on the shared state.  A blocked thread is an event that is not
    enabled ([exec] returns [None]); dereferencing a handle that points to no
    job object is undefined behaviour in the source and is [None] as well.

    Client code is modelled by what it does to the engine: the production
    step of a job is any number of [push_task] calls with tasks of that job
    (as in the programs of the repository), a task's [process] and a job's
    [process_after_done] are calls that return.  The job lifecycle the client
    is responsible for (submit a job object once, restart it only when it is
    done) is the predicate [lifecycle] on schedules; [exec] itself does not
    enforce it, as the source does not.

    Two revisions of the header are in the repository.  The current one counts
    the running tasks of every job ([m_running_tasks]); it is the top level of
    this file.  The older one decides completion by scanning the queue; it is
    [Module Legacy]. *)

From Stdlib Require Import ZArith Lia.
From stdpp Require Import gmap list.

(** ** Handles, jobs, tasks *)

(** [typedef Job* JOBID]: the address of the job object; [0] is [nullptr]. *)
Abbreviation JOBID := N (only parsing).
Definition nullptr : JOBID := 0%N.

(** [atomic_ulong] wraps around at [ULONG_MAX + 1] (LP64: 64 bits; the
    proofs only use that the modulus is positive). *)
Definition ULONG_MODULUS : Z := (2 ^ 64)%Z.

(** [class Job].  The first four fields are the data members.  The [g_]
    fields are history counters added for the proofs: no operation reads
    them.  [m_conveyor] is [true] once [set_conveyor(this)] has run. *)
Record Job := mkJob {
  m_is_all_task_pushed : bool;
  m_is_done : bool;
  m_conveyor : bool;
  m_running_tasks : Z;
  g_activations : nat;   (* driver threads started for the job *)
  g_pushed : nat;        (* push_task calls that appended a task of the job *)
  g_executed : nat;      (* Task::process calls of the job that returned *)
  g_finished : nat;      (* dec_task_count calls *)
  g_hooks : nat          (* process_after_done calls that returned *)
}.

(** [Job() : m_conveyor(nullptr), m_running_tasks(0)], both flags clear. *)
Definition Job_new : Job := mkJob false false false 0 0 0 0 0 0.

Definition set_conveyor (J : Job) : Job :=
  mkJob (m_is_all_task_pushed J) (m_is_done J) true (m_running_tasks J)
        (g_activations J) (g_pushed J) (g_executed J) (g_finished J) (g_hooks J).

Definition is_done (J : Job) : bool := m_is_done J.

(** [++m_running_tasks] (called by [push_task] just before it appends the
    task, which the history records) *)
Definition inc_task_count (J : Job) : Job :=
  mkJob (m_is_all_task_pushed J) (m_is_done J) (m_conveyor J)
        ((m_running_tasks J + 1) mod ULONG_MODULUS)
        (g_activations J) (S (g_pushed J)) (g_executed J) (g_finished J) (g_hooks J).

(** [--m_running_tasks; m_running_tasks.notify_one()] (and its record in
    the history) *)
Definition dec_task_count (J : Job) : Job :=
  mkJob (m_is_all_task_pushed J) (m_is_done J) (m_conveyor J)
        ((m_running_tasks J - 1) mod ULONG_MODULUS)
        (g_activations J) (g_pushed J) (g_executed J) (S (g_finished J)) (g_hooks J).

Definition get_task_count (J : Job) : Z := m_running_tasks J.

(** [m_is_all_task_pushed.test_and_set(); notify_all()] *)
Definition set_all_tasks_pushed (J : Job) : Job :=
  mkJob true (m_is_done J) (m_conveyor J) (m_running_tasks J)
        (g_activations J) (g_pushed J) (g_executed J) (g_finished J) (g_hooks J).

(** [reset]: clears the two flags; the counter is not written. *)
Definition reset (J : Job) : Job :=
  mkJob false false (m_conveyor J) (m_running_tasks J)
        (g_activations J) (g_pushed J) (g_executed J) (g_finished J) (g_hooks J).

(** The tail of [wait_until_all_tasks_done], in two pieces:
    [process_after_done()] returns, then [m_is_done.test_and_set()]. *)
Definition process_after_done (J : Job) : Job :=
  mkJob (m_is_all_task_pushed J) (m_is_done J) (m_conveyor J) (m_running_tasks J)
        (g_activations J) (g_pushed J) (g_executed J) (g_finished J) (S (g_hooks J)).

Definition set_is_done (J : Job) : Job :=
  mkJob (m_is_all_task_pushed J) true (m_conveyor J) (m_running_tasks J)
        (g_activations J) (g_pushed J) (g_executed J) (g_finished J) (g_hooks J).

(** A driver thread is started for the job ([process_job]). *)
Definition activated (J : Job) : Job :=
  mkJob (m_is_all_task_pushed J) (m_is_done J) (m_conveyor J) (m_running_tasks J)
        (S (g_activations J)) (g_pushed J) (g_executed J) (g_finished J) (g_hooks J).

(** [Task::process] of one of the job's tasks returned. *)
Definition task_processed (J : Job) : Job :=
  mkJob (m_is_all_task_pushed J) (m_is_done J) (m_conveyor J) (m_running_tasks J)
        (g_activations J) (g_pushed J) (S (g_executed J)) (g_finished J) (g_hooks J).

(** ** Threads *)

(** A worker thread inside [process_task]. *)
Inductive worker_pc :=
| WWait                 (* top of the loop: lock, m_new_task_cv.wait *)
| WProcess (j : JOBID)  (* task moved out of the queue, task->process() runs *)
| WDec (j : JOBID)      (* process() returned, dec_task_count is next *)
| WExit.                (* saw the null task and left the loop *)

(** A driver thread inside [process_job]. *)
Inductive driver_pc :=
| DProcess     (* inside job->process() *)
| DPushWait    (* inside push_task, blocked on m_task_done *)
| DWaitTasks   (* set_all_tasks_pushed done; in the loop on m_running_tasks *)
| DAfterDone   (* the loop read zero; process_after_done() runs *)
| DSetDone     (* process_after_done() returned; m_is_done not yet set *)
| DExit.

(** The thread that called [terminate]: idle, or about to join
    [m_tasks[k]]. *)
Inductive term_pc :=
| TIdle
| TJoin (k : nat).

#[global] Instance worker_pc_eq_dec : EqDecision worker_pc.
Proof. solve_decision. Defined.
#[global] Instance driver_pc_eq_dec : EqDecision driver_pc.
Proof. solve_decision. Defined.
#[global] Instance term_pc_eq_dec : EqDecision term_pc.
Proof. solve_decision. Defined.

(** ** The engine and its threads

    [m_jobs_map], [m_max_tasks], [m_tasks] and [m_tasks_queue] are the data
    members of [MultiTask].  [heap] holds the job objects by address (a job
    popped from the registry stays alive in the hands of its caller).
    [workers] has the program counter of every worker thread ever started,
    [m_tasks] the indices of those whose [std::thread] handle is still in the
    vector.  A queue entry is a [unique_ptr<Task>]: [Some j] is a task whose
    [m_jobid] is [j], [None] is the null pointer pushed by [terminate]. *)
Record World := mkWorld {
  m_jobs_map : gmap N N;
  m_max_tasks : Z;
  m_tasks : list nat;
  m_tasks_queue : list (option N);
  heap : gmap N Job;
  workers : list worker_pc;
  drivers : list (N * driver_pc);
  term : term_pc;
  g_joins : list nat;        (* history: threads joined, in order *)
  g_discarded : list N       (* history: tasks destroyed by a queue clear *)
}.

Definition with_max_tasks (c : Z) (s : World) : World :=
  mkWorld (m_jobs_map s) c (m_tasks s) (m_tasks_queue s) (heap s)
          (workers s) (drivers s) (term s) (g_joins s) (g_discarded s).
Definition with_jobs_map (m : gmap N N) (s : World) : World :=
  mkWorld m (m_max_tasks s) (m_tasks s) (m_tasks_queue s) (heap s)
          (workers s) (drivers s) (term s) (g_joins s) (g_discarded s).
Definition with_tasks (t : list nat) (s : World) : World :=
  mkWorld (m_jobs_map s) (m_max_tasks s) t (m_tasks_queue s) (heap s)
          (workers s) (drivers s) (term s) (g_joins s) (g_discarded s).
Definition with_queue (q : list (option N)) (s : World) : World :=
  mkWorld (m_jobs_map s) (m_max_tasks s) (m_tasks s) q (heap s)
          (workers s) (drivers s) (term s) (g_joins s) (g_discarded s).
Definition with_heap (h : gmap N Job) (s : World) : World :=
  mkWorld (m_jobs_map s) (m_max_tasks s) (m_tasks s) (m_tasks_queue s) h
          (workers s) (drivers s) (term s) (g_joins s) (g_discarded s).
Definition with_workers (w : list worker_pc) (s : World) : World :=
  mkWorld (m_jobs_map s) (m_max_tasks s) (m_tasks s) (m_tasks_queue s) (heap s)
          w (drivers s) (term s) (g_joins s) (g_discarded s).
Definition with_drivers (d : list (N * driver_pc)) (s : World) : World :=
  mkWorld (m_jobs_map s) (m_max_tasks s) (m_tasks s) (m_tasks_queue s) (heap s)
          (workers s) d (term s) (g_joins s) (g_discarded s).
Definition with_term (t : term_pc) (s : World) : World :=
  mkWorld (m_jobs_map s) (m_max_tasks s) (m_tasks s) (m_tasks_queue s) (heap s)
          (workers s) (drivers s) t (g_joins s) (g_discarded s).
Definition with_joins (l : list nat) (s : World) : World :=
  mkWorld (m_jobs_map s) (m_max_tasks s) (m_tasks s) (m_tasks_queue s) (heap s)
          (workers s) (drivers s) (term s) l (g_discarded s).
Definition with_discarded (l : list N) (s : World) : World :=
  mkWorld (m_jobs_map s) (m_max_tasks s) (m_tasks s) (m_tasks_queue s) (heap s)
          (workers s) (drivers s) (term s) (g_joins s) l.

(** Apply [f] to the job object at address [j]; no such object: undefined
    behaviour. *)
Definition on_job (j : JOBID) (f : Job -> Job) (s : World) : option World :=
  match heap s !! j with
  | Some J => Some (with_heap (<[j := f J]> (heap s)) s)
  | None => None
  end.

(** The job object behind a handle, for statements; a handle without object
    reads as a freshly constructed job. *)
Definition job_at (s : World) (j : JOBID) : Job :=
  match heap s !! j with
  | Some J => J
  | None => Job_new
  end.

(** The tasks among the queue entries (the null entry is no task). *)
Definition tasks_of (q : list (option N)) : list N := omap id q.

Definition set_worker (w : nat) (pc : worker_pc) (s : World) : World :=
  with_workers (<[w := pc]> (workers s)) s.
Definition set_driver (d : nat) (j : JOBID) (pc : driver_pc) (s : World) : World :=
  with_drivers (<[d := (j, pc)]> (drivers s)) s.
(** [thread job_thread(&MultiTask::process_job, this, job); detach()] *)
Definition spawn_driver (j : JOBID) (s : World) : World :=
  with_drivers (drivers s ++ [(j, DProcess)]) s.

(** ** Construction: [MultiTask(task_threads, max_tasks)] and [init] *)

(** Conversion of an [unsigned int] value to [int]. *)
Definition to_int (u : Z) : Z :=
  (if u <? 2 ^ 31 then u else u - 2 ^ 32)%Z.

(** [int task_threads_count =
       (task_threads == 0 ? thread::hardware_concurrency() - 1 : task_threads);
     if (!task_threads_count) ++task_threads_count;]
    The subtraction is on [unsigned int]. *)
Definition task_threads_count (task_threads hardware_concurrency : Z) : Z :=
  let c := to_int (if (task_threads =? 0)%Z
                   then ((hardware_concurrency - 1) mod 2 ^ 32)%Z
                   else task_threads) in
  if (c =? 0)%Z then (c + 1)%Z else c.

(** [vector<thread>::max_size()]: [reserve(n)] throws [length_error] above
    it ([PTRDIFF_MAX / sizeof(thread)]). *)
Definition vector_max_size : Z := ((2 ^ 63 - 1) / 8)%Z.

(** [init]: [None] is the [length_error] thrown by [m_tasks.reserve], whose
    argument is the [int] converted to [size_t]. *)
Definition init (task_threads max_tasks hardware_concurrency : Z) (s : World)
  : option World :=
  let c := task_threads_count task_threads hardware_concurrency in
  if (vector_max_size <? c mod 2 ^ 64)%Z then None
  else
    let n := Z.to_nat c in
    Some (with_workers (workers s ++ replicate n WWait)
           (with_tasks (m_tasks s ++ seq (length (workers s)) n)
             (with_max_tasks max_tasks s))).

Definition World_empty : World :=
  mkWorld ∅ 0 [] [] ∅ [] [] TIdle [] [].

Definition MultiTask_new (task_threads max_tasks hardware_concurrency : Z)
  : option World :=
  init task_threads max_tasks hardware_concurrency World_empty.

(** The state after a successful construction with [n] workers. *)
Definition initial (n : nat) (max_tasks : Z) : World :=
  mkWorld ∅ max_tasks (seq 0 n) [] ∅ (replicate n WWait) [] TIdle [] [].

(** ** Operations of [MultiTask] *)

(** [push_task]: the test before the wait, the predicate of the wait, and
    the two statements after it. *)
Definition push_task_full (s : World) : bool :=
  negb (m_max_tasks s =? 0)%Z
  && (Z.of_nat (length (m_tasks_queue s)) =? m_max_tasks s)%Z.
Definition push_task_room (s : World) : bool :=
  (Z.of_nat (length (m_tasks_queue s)) <? m_max_tasks s)%Z.
Definition push_task_append (j : JOBID) (s : World) : option World :=
  on_job j inc_task_count (with_queue (m_tasks_queue s ++ [Some j]) s).

(** [push_job]: the returned pointer, what the caller's [unique_ptr] holds
    after the call ([None]: moved from), and the new state.  [try_emplace]
    does not move from its argument when the key is present. *)
Definition push_job (j : JOBID) (s : World)
  : option (JOBID * option JOBID * World) :=
  match on_job j set_conveyor s with
  | None => None
  | Some s1 =>
      match m_jobs_map s1 !! j with
      | Some _ => Some (j, Some j, s1)
      | None =>
          match on_job j activated
                  (spawn_driver j (with_jobs_map (<[j := j]> (m_jobs_map s1)) s1)) with
          | Some s2 => Some (j, None, s2)
          | None => None
          end
      end
  end.

(** [pop_job]: the extracted pointer ([None]: empty [unique_ptr]). *)
Definition pop_job (j : JOBID) (s : World) : option JOBID * World :=
  match m_jobs_map s !! j with
  | None => (None, s)
  | Some p => (Some p, with_jobs_map (delete j (m_jobs_map s)) s)
  end.

Definition restart_job (j : JOBID) (s : World) : option World :=
  if (j =? nullptr)%N then Some s
  else
    match on_job j reset s with
    | Some s1 => on_job j activated (spawn_driver j s1)
    | None => None
    end.

Definition check_job_is_done (j : JOBID) (s : World) : option bool :=
  if (j =? nullptr)%N then Some true
  else
    match heap s !! j with
    | Some J => Some (get_task_count J =? 0)%Z
    | None => None
    end.

(** [wait_job_done] blocks in [m_is_done.wait(false)]: [Some true] when the
    call returns in state [s], [Some false] when it stays blocked. *)
Definition wait_job_done (j : JOBID) (s : World) : option bool :=
  if (j =? nullptr)%N then Some true
  else
    match heap s !! j with
    | Some J => Some (is_done J)
    | None => None
    end.

(** ** Events and the step function *)

Inductive event :=
(* client threads *)
| ENewJob (j : JOBID)        (* make_unique<T>(...): a job object at address j *)
| EPushJob (j : JOBID)
| EPopJob (j : JOBID)
| ERestartJob (j : JOBID)
(* the thread inside terminate() *)
| ETerminateBegin            (* lock; clear; push_back(null); unlock; notify_all *)
| ETerminateJoin             (* t.join() for the next element of m_tasks *)
| ETerminateEnd              (* m_tasks.clear(); m_tasks_queue.clear() *)
(* driver thread d, inside process_job *)
| EPushTask (d : nat)        (* job->process() calls push_task *)
| EPushWake (d : nat)        (* the wait on m_task_done inside push_task returns *)
| EAllPushed (d : nat)       (* job->process() returns; set_all_tasks_pushed *)
| EWaitTasks (d : nat)       (* one reading of m_running_tasks in the loop *)
| EAfterDone (d : nat)       (* process_after_done() returns *)
| ESetDone (d : nat)         (* m_is_done.test_and_set(); notify_all *)
(* worker thread w, inside process_task *)
| EWorkerPop (w : nat)       (* wait for a non-empty queue; front; pop or break *)
| EWorkerProcess (w : nat)   (* task->process() returns *)
| EWorkerDec (w : nat).      (* dec_task_count; m_task_done.notify_all *)

(** [terminate], first critical section. *)
Definition terminate_begin (s : World) : World :=
  with_term (TJoin 0)
    (with_queue [None]
      (with_discarded (g_discarded s ++ tasks_of (m_tasks_queue s)) s)).

(** [terminate], after the joins. *)
Definition terminate_end (s : World) : World :=
  with_term TIdle
    (with_tasks []
      (with_queue []
        (with_discarded (g_discarded s ++ tasks_of (m_tasks_queue s)) s))).

Definition exec_terminate_join (k : nat) (s : World) : option World :=
  match m_tasks s !! k with
  | None => None
  | Some t =>
      match workers s !! t with
      | Some WExit => Some (with_term (TJoin (S k)) (with_joins (g_joins s ++ [t]) s))
      | _ => None
      end
  end.

(** One step of driver [d], whose job is [j] and whose program counter is
    [pc]: [process_job] with [wait_until_all_tasks_done] unfolded. *)
Definition process_job (e : event) (d : nat) (j : JOBID) (pc : driver_pc)
    (s : World) : option World :=
  match e, pc with
  | EPushTask _, DProcess =>
      if push_task_full s then Some (set_driver d j DPushWait s)
      else push_task_append j s
  | EPushWake _, DPushWait =>
      if push_task_room s then push_task_append j (set_driver d j DProcess s)
      else None
  | EAllPushed _, DProcess =>
      on_job j set_all_tasks_pushed (set_driver d j DWaitTasks s)
  | EWaitTasks _, DWaitTasks =>
      match heap s !! j with
      | None => None
      | Some J =>
          if (m_running_tasks J =? 0)%Z then Some (set_driver d j DAfterDone s)
          else Some s
      end
  | EAfterDone _, DAfterDone =>
      on_job j process_after_done (set_driver d j DSetDone s)
  | ESetDone _, DSetDone =>
      on_job j set_is_done (set_driver d j DExit s)
  | _, _ => None
  end.

(** One step of worker [w], whose program counter is [pc].  The job object
    of a task a worker holds exists in every reachable state
    ([worker_job_in_heap]), so the record of [task->process()] in the job's
    history is always possible. *)
Definition process_task (e : event) (w : nat) (pc : worker_pc) (s : World)
  : option World :=
  match e, pc with
  | EWorkerPop _, WWait =>
      match m_tasks_queue s with
      | [] => None
      | None :: _ => Some (set_worker w WExit s)
      | Some j :: q => Some (set_worker w (WProcess j) (with_queue q s))
      end
  | EWorkerProcess _, WProcess j =>
      on_job j task_processed (set_worker w (WDec j) s)
  | EWorkerDec _, WDec j =>
      on_job j dec_task_count (set_worker w WWait s)
  | _, _ => None
  end.

Definition exec (e : event) (s : World) : option World :=
  match e with
  | ENewJob j =>
      if (j =? nullptr)%N then None
      else match heap s !! j with
           | Some _ => None
           | None => Some (with_heap (<[j := Job_new]> (heap s)) s)
           end
  | EPushJob j =>
      match push_job j s with
      | Some (_, _, s') => Some s'
      | None => None
      end
  | EPopJob j => Some (snd (pop_job j s))
  | ERestartJob j => restart_job j s
  | ETerminateBegin =>
      match term s with
      | TIdle => Some (terminate_begin s)
      | TJoin _ => None
      end
  | ETerminateJoin =>
      match term s with
      | TJoin k => exec_terminate_join k s
      | TIdle => None
      end
  | ETerminateEnd =>
      match term s with
      | TJoin k => if decide (k = length (m_tasks s)) then Some (terminate_end s) else None
      | TIdle => None
      end
  | EPushTask d | EPushWake d | EAllPushed d | EWaitTasks d
  | EAfterDone d | ESetDone d =>
      match drivers s !! d with
      | Some (j, pc) => process_job e d j pc s
      | None => None
      end
  | EWorkerPop w | EWorkerProcess w | EWorkerDec w =>
      match workers s !! w with
      | Some pc => process_task e w pc s
      | None => None
      end
  end.

(** A schedule is a list of events; [run] executes it from left to right. *)
Fixpoint run (sched : list event) (s : World) : option World :=
  match sched with
  | [] => Some s
  | e :: sched' =>
      match exec e s with
      | Some s' => run sched' s'
      | None => None
      end
  end.

(** The documented lifecycle of a job, as far as the client is responsible
    for it: a job object is submitted when it has never been activated
    (submitting a registered handle again is allowed: it is rejected), and it
    is restarted only once it is done. *)
Definition client_ok (e : event) (s : World) : bool :=
  match e with
  | EPushJob j =>
      bool_decide (is_Some (m_jobs_map s !! j))
      || bool_decide (g_activations (job_at s j) = 0)
  | ERestartJob j => (j =? nullptr)%N || is_done (job_at s j)
  | _ => true
  end.

Fixpoint lifecycle (sched : list event) (s : World) : bool :=
  match sched with
  | [] => true
  | e :: sched' =>
      client_ok e s
      && match exec e s with
         | Some s' => lifecycle sched' s'
         | None => true
         end
  end.

(** ** Observations on a state *)

Fixpoint countb {A} (f : A -> bool) (l : list A) : nat :=
  match l with
  | [] => 0
  | x :: l' => (if f x then 1 else 0) + countb f l'
  end.

Definition is_task_of (j : JOBID) (x : option N) : bool :=
  match x with
  | Some j' => (j' =? j)%N
  | None => false
  end.
Definition is_WProcess (j : JOBID) (pc : worker_pc) : bool :=
  match pc with
  | WProcess j' => (j' =? j)%N
  | _ => false
  end.
Definition is_WDec (j : JOBID) (pc : worker_pc) : bool :=
  match pc with
  | WDec j' => (j' =? j)%N
  | _ => false
  end.
Definition driver_at (j : JOBID) (f : driver_pc -> bool) (x : N * driver_pc) : bool :=
  (fst x =? j)%N && f (snd x).

(** Tasks of job [j]: in the queue, being processed, processed but not yet
    counted down, destroyed by a clear. *)
Definition queued (j : JOBID) (s : World) : nat :=
  countb (is_task_of j) (m_tasks_queue s).
Definition processing (j : JOBID) (s : World) : nat :=
  countb (is_WProcess j) (workers s).
Definition uncounted (j : JOBID) (s : World) : nat :=
  countb (is_WDec j) (workers s).
Definition discarded (j : JOBID) (s : World) : nat :=
  countb (N.eqb j) (g_discarded s).

(** Driver threads of job [j] by phase: before the loop on the counter has
    read zero, inside [process_after_done], between its return and the
    setting of [m_is_done]. *)
Definition pc_producing (pc : driver_pc) : bool :=
  match pc with
  | DProcess | DPushWait | DWaitTasks => true
  | _ => false
  end.
Definition pc_in_hook (pc : driver_pc) : bool :=
  match pc with
  | DAfterDone => true
  | _ => false
  end.
Definition pc_past_hook (pc : driver_pc) : bool :=
  match pc with
  | DSetDone => true
  | _ => false
  end.
Definition started (j : JOBID) (s : World) : nat :=
  countb (driver_at j (fun _ => true)) (drivers s).
Definition producing (j : JOBID) (s : World) : nat :=
  countb (driver_at j pc_producing) (drivers s).
Definition in_hook (j : JOBID) (s : World) : nat :=
  countb (driver_at j pc_in_hook) (drivers s).
Definition past_hook (j : JOBID) (s : World) : nat :=
  countb (driver_at j pc_past_hook) (drivers s).

(** ** Invariants *)

Definition job_inv (s : World) (j : JOBID) : Prop :=
  let J := job_at s j in
  m_running_tasks J
  = ((Z.of_nat (g_pushed J) - Z.of_nat (g_finished J)) mod ULONG_MODULUS)%Z
  /\ g_executed J = g_finished J + uncounted j s
  /\ g_pushed J = queued j s + processing j s + g_executed J + discarded j s
  /\ g_activations J = started j s.

Definition accounting (s : World) : Prop :=
  heap s !! nullptr = None /\ forall j, job_inv s j.

(** The registry maps a handle to the job object at that address, and that
    object went through [push_job]. *)
Definition registry_inv (s : World) : Prop :=
  forall j p, m_jobs_map s !! j = Some p ->
    p = j /\ m_conveyor (job_at s j) = true.

Definition tokens (j : JOBID) (s : World) : nat :=
  producing j s + in_hook j s + past_hook j s + Nat.b2n (m_is_done (job_at s j)).

Definition phase_inv (s : World) (j : JOBID) : Prop :=
  let J := job_at s j in
  tokens j s = (if decide (g_activations J = 0) then 0 else 1)
  /\ g_activations J = g_hooks J + producing j s + in_hook j s
  /\ (0 < in_hook j s + past_hook j s + Nat.b2n (m_is_done J) ->
      (Z.of_nat (g_pushed J) < ULONG_MODULUS)%Z ->
      g_finished J = g_pushed J)
  /\ (g_activations J = 0 -> g_pushed J = 0).


(** The capacity is fixed by [init], and a positive capacity bounds the
    queue. *)
Definition cap_inv (cap : Z) (s : World) : Prop :=
  m_max_tasks s = cap
  /\ ((0 < cap)%Z -> (Z.of_nat (length (m_tasks_queue s)) <= cap)%Z).

(** The worker threads and their joins.  With [n] workers started by
    [init], either the handles are all in [m_tasks] and a running
    [terminate] has joined the first [k] of them, or a [terminate] has
    completed, the vector is empty and every worker was joined once.  While
    [terminate] is joining, the null task is at the front of the queue. *)
Definition term_inv (n : nat) (s : World) : Prop :=
  length (workers s) = n
  /\ match term s with
     | TIdle => True
     | TJoin k => hd_error (m_tasks_queue s) = Some None
     end
  /\ ((m_tasks s = seq 0 n
       /\ match term s with
          | TIdle => g_joins s = []
          | TJoin k => k <= n /\ g_joins s = seq 0 k
          end)
      \/ (m_tasks s = [] /\ g_joins s = seq 0 n
          /\ match term s with
             | TIdle => True
             | TJoin k => k = 0
             end)).

(** The events that take a worker out of its loop once the null task is at
    the front of the queue. *)
Definition worker_exit_schedule (w : nat) (pc : worker_pc) : list event :=
  match pc with
  | WWait => [EWorkerPop w]
  | WProcess _ => [EWorkerProcess w; EWorkerDec w; EWorkerPop w]
  | WDec _ => [EWorkerDec w; EWorkerPop w]
  | WExit => []
  end.

(** ** The older revision: completion by scanning the queue

    In the older revision of the header a job has no counter.  The driver
    ([process_job]) waits in [wait_job_tasks_done] until no task of the job
    is left in the queue and then calls [set_done], which raises the flag
    first and runs [process_after_done] second.  [check_job_is_done] is the
    same scan.  Only what the completion check involves is modelled:
    submitting, pushing, the worker loop and the driver. *)
Module Legacy.

Record Job := mkJob {
  m_is_all_task_pushed : bool;
  m_is_done : bool;
  m_conveyor : bool;
  g_pushed : nat;      (* history: tasks of the job appended by push_task *)
  g_executed : nat;    (* history: Task::process calls that returned *)
  g_hooks : nat        (* history: process_after_done calls that returned *)
}.

Definition Job_new : Job := mkJob false false false 0 0 0.

Definition set_conveyor (J : Job) : Job :=
  mkJob (m_is_all_task_pushed J) (m_is_done J) true
        (g_pushed J) (g_executed J) (g_hooks J).
Definition is_done (J : Job) : bool := m_is_done J.
Definition set_all_tasks_pushed (J : Job) : Job :=
  mkJob true (m_is_done J) (m_conveyor J) (g_pushed J) (g_executed J) (g_hooks J).
(** [set_done], first half: [m_is_done.test_and_set(); notify_all()]. *)
Definition set_is_done (J : Job) : Job :=
  mkJob (m_is_all_task_pushed J) true (m_conveyor J)
        (g_pushed J) (g_executed J) (g_hooks J).
(** [set_done], second half: [process_after_done()] returns. *)
Definition process_after_done (J : Job) : Job :=
  mkJob (m_is_all_task_pushed J) (m_is_done J) (m_conveyor J)
        (g_pushed J) (g_executed J) (S (g_hooks J)).
Definition task_pushed (J : Job) : Job :=
  mkJob (m_is_all_task_pushed J) (m_is_done J) (m_conveyor J)
        (S (g_pushed J)) (g_executed J) (g_hooks J).
Definition task_processed (J : Job) : Job :=
  mkJob (m_is_all_task_pushed J) (m_is_done J) (m_conveyor J)
        (g_pushed J) (S (g_executed J)) (g_hooks J).

(** [class Task]; [Terminator() : Task(0, true)]. *)
Record Task := mkTask {
  m_is_terminator : bool;
  m_jobid : N
}.
Definition Terminator : Task := mkTask true 0.
Definition get_id (t : Task) : N := m_jobid t.

Inductive worker_pc :=
| WWait
| WProcess (j : JOBID)   (* task moved out of the queue, task->process() runs *)
| WExit.

Inductive driver_pc :=
| DProcess      (* inside job->process() *)
| DPushWait     (* inside push_task, blocked on m_task_done *)
| DWaitTasks    (* inside wait_job_tasks_done *)
| DSetDone      (* the scan found no task; set_done is next *)
| DAfterDone    (* m_is_done is set; process_after_done() runs *)
| DExit.

Record World := mkWorld {
  m_jobs_map : gmap N N;
  m_max_tasks : Z;
  m_tasks_queue : list Task;
  heap : gmap N Job;
  workers : list worker_pc;
  drivers : list (N * driver_pc)
}.

Definition with_jobs_map (m : gmap N N) (s : World) : World :=
  mkWorld m (m_max_tasks s) (m_tasks_queue s) (heap s) (workers s) (drivers s).
Definition with_queue (q : list Task) (s : World) : World :=
  mkWorld (m_jobs_map s) (m_max_tasks s) q (heap s) (workers s) (drivers s).
Definition with_heap (h : gmap N Job) (s : World) : World :=
  mkWorld (m_jobs_map s) (m_max_tasks s) (m_tasks_queue s) h (workers s) (drivers s).
Definition with_workers (w : list worker_pc) (s : World) : World :=
  mkWorld (m_jobs_map s) (m_max_tasks s) (m_tasks_queue s) (heap s) w (drivers s).
Definition with_drivers (d : list (N * driver_pc)) (s : World) : World :=
  mkWorld (m_jobs_map s) (m_max_tasks s) (m_tasks_queue s) (heap s) (workers s) d.

Definition on_job (j : JOBID) (f : Job -> Job) (s : World) : option World :=
  match heap s !! j with
  | Some J => Some (with_heap (<[j := f J]> (heap s)) s)
  | None => None
  end.
Definition job_at (s : World) (j : JOBID) : Job :=
  match heap s !! j with
  | Some J => J
  | None => Job_new
  end.
Definition set_worker (w : nat) (pc : worker_pc) (s : World) : World :=
  with_workers (<[w := pc]> (workers s)) s.
Definition set_driver (d : nat) (j : JOBID) (pc : driver_pc) (s : World) : World :=
  with_drivers (<[d := (j, pc)]> (drivers s)) s.

Definition initial (n : nat) (max_tasks : Z) : World :=
  mkWorld ∅ max_tasks [] ∅ (replicate n WWait) [].

(** [none_of(begin, end, [jobid](elem) { return elem->get_id() == jobid; })] *)
Definition is_job_tasks_queue_empty (jobid : JOBID) (s : World) : bool :=
  forallb (fun elem => negb (get_id elem =? jobid)%N) (m_tasks_queue s).

Definition check_job_is_done (jobid : JOBID) (s : World) : option bool :=
  if (jobid =? nullptr)%N then Some true
  else Some (is_job_tasks_queue_empty jobid s).

Definition push_task_full (s : World) : bool :=
  negb (m_max_tasks s =? 0)%Z
  && (Z.of_nat (length (m_tasks_queue s)) =? m_max_tasks s)%Z.
Definition push_task_room (s : World) : bool :=
  (Z.of_nat (length (m_tasks_queue s)) <? m_max_tasks s)%Z.
Definition push_task_append (j : JOBID) (s : World) : option World :=
  on_job j task_pushed (with_queue (m_tasks_queue s ++ [mkTask false j]) s).

(** [push_job]: the returned pointer, the caller's [unique_ptr] after the
    call, the new state.  The job is moved into the [pair] before [insert]
    looks for the key: when the key is present the job object is destroyed
    with the temporary, and the null pointer is returned. *)
Definition push_job (j : JOBID) (s : World)
  : option (JOBID * option JOBID * World) :=
  match on_job j set_conveyor s with
  | None => None
  | Some s1 =>
      match m_jobs_map s1 !! j with
      | Some _ => Some (nullptr, None, with_heap (delete j (heap s1)) s1)
      | None =>
          Some (j, None,
                with_drivers (drivers s1 ++ [(j, DProcess)])
                  (with_jobs_map (<[j := j]> (m_jobs_map s1)) s1))
      end
  end.

Inductive event :=
| ENewJob (j : JOBID)
| EPushJob (j : JOBID)
| EPushTask (d : nat)
| EPushWake (d : nat)
| EAllPushed (d : nat)      (* job->process() returns; set_all_tasks_pushed *)
| EWaitTasks (d : nat)      (* one test of the loop in wait_job_tasks_done *)
| ESetDone (d : nat)        (* set_done: the flag *)
| EAfterDone (d : nat)      (* set_done: process_after_done() returns *)
| EWorkerPop (w : nat)
| EWorkerProcess (w : nat). (* task->process() returns; m_task_done.notify_all *)

Definition process_job (e : event) (d : nat) (j : JOBID) (pc : driver_pc)
    (s : World) : option World :=
  match e, pc with
  | EPushTask _, DProcess =>
      if push_task_full s then Some (set_driver d j DPushWait s)
      else push_task_append j s
  | EPushWake _, DPushWait =>
      if push_task_room s then push_task_append j (set_driver d j DProcess s)
      else None
  | EAllPushed _, DProcess =>
      on_job j set_all_tasks_pushed (set_driver d j DWaitTasks s)
  | EWaitTasks _, DWaitTasks =>
      if is_job_tasks_queue_empty j s then Some (set_driver d j DSetDone s)
      else Some s
  | ESetDone _, DSetDone =>
      on_job j set_is_done (set_driver d j DAfterDone s)
  | EAfterDone _, DAfterDone =>
      on_job j process_after_done (set_driver d j DExit s)
  | _, _ => None
  end.

Definition process_task (e : event) (w : nat) (pc : worker_pc) (s : World)
  : option World :=
  match e, pc with
  | EWorkerPop _, WWait =>
      match m_tasks_queue s with
      | [] => None
      | t :: q =>
          if m_is_terminator t then Some (set_worker w WExit s)
          else Some (set_worker w (WProcess (get_id t)) (with_queue q s))
      end
  | EWorkerProcess _, WProcess j =>
      on_job j task_processed (set_worker w WWait s)
  | _, _ => None
  end.

Definition exec (e : event) (s : World) : option World :=
  match e with
  | ENewJob j =>
      if (j =? nullptr)%N then None
      else match heap s !! j with
           | Some _ => None
           | None => Some (with_heap (<[j := Job_new]> (heap s)) s)
           end
  | EPushJob j =>
      match push_job j s with
      | Some (_, _, s') => Some s'
      | None => None
      end
  | EPushTask d | EPushWake d | EAllPushed d | EWaitTasks d
  | ESetDone d | EAfterDone d =>
      match drivers s !! d with
      | Some (j, pc) => process_job e d j pc s
      | None => None
      end
  | EWorkerPop w | EWorkerProcess w =>
      match workers s !! w with
      | Some pc => process_task e w pc s
      | None => None
      end
  end.

Fixpoint run (sched : list event) (s : World) : option World :=
  match sched with
  | [] => Some s
  | e :: sched' =>
      match exec e s with
      | Some s' => run sched' s'
      | None => None
      end
  end.

End Legacy.

(** ** History order and example schedules *)

Definition history_le (j : JOBID) (s s' : World) : Prop :=
  g_activations (job_at s j) <= g_activations (job_at s' j)
  /\ g_pushed (job_at s j) <= g_pushed (job_at s' j)
  /\ g_hooks (job_at s j) <= g_hooks (job_at s' j)
  /\ discarded j s <= discarded j s'.

(** The activation of a submitted job with three tasks on two workers, run
    to completion. *)
Definition three_task_schedule : list event :=
  [EPushTask 0; EPushTask 0; EWorkerPop 0;
   EPushTask 0; EWorkerPop 1; EAllPushed 0; EWaitTasks 0;
   EWorkerProcess 1; EWorkerDec 1; EWorkerPop 1; EWorkerProcess 0;
   EWorkerProcess 1; EWorkerDec 0; EWaitTasks 0; EWorkerDec 1;
   EWaitTasks 0; EAfterDone 0; ESetDone 0].

(** A job with three tasks, up to the reading of zero by its driver. *)
Definition three_task_prefix : list event :=
  [ENewJob 1; EPushJob 1; EPushTask 0; EPushTask 0; EWorkerPop 0;
   EPushTask 0; EWorkerPop 1; EAllPushed 0; EWaitTasks 0;
   EWorkerProcess 1; EWorkerDec 1; EWorkerPop 1; EWorkerProcess 0;
   EWorkerProcess 1; EWorkerDec 0; EWaitTasks 0; EWorkerDec 1;
   EWaitTasks 0].

(** One task, run to completion. *)
Definition one_task_done : list event :=
  [ENewJob 1; EPushJob 1; EPushTask 0; EAllPushed 0; EWorkerPop 0;
   EWorkerProcess 0; EWorkerDec 0; EWaitTasks 0; EAfterDone 0; ESetDone 0].

(** Two tasks pushed, none taken, [terminate] runs to its end. *)
Definition two_queued : list event :=
  [ENewJob 1; EPushJob 1; EPushTask 0; EPushTask 0; EAllPushed 0].
Definition terminate_rest : list event :=
  [EWorkerPop 0; ETerminateJoin; ETerminateEnd; EWaitTasks 0].

(** Two workers, one task in a worker and one in the queue when
    [terminate] starts. *)
Definition shutdown_schedule : list event :=
  [ENewJob 1; EPushJob 1; EPushTask 0; EPushTask 0; EWorkerPop 0;
   ETerminateBegin; EWorkerPop 1].

(** ** Further operations and observations *)

(** [emplace_job]: [make_unique<T>(args...)] constructs the job at a new
    address [j], [push_job] takes the temporary.  When [push_job] leaves the
    temporary in possession of the job, its destructor destroys the job at
    the end of the call. *)
Definition emplace_job (j : JOBID) (s : World) : option (JOBID * World) :=
  match exec (ENewJob j) s with
  | None => None
  | Some s1 =>
      match push_job j s1 with
      | Some (r, Some _, s2) => Some (r, with_heap (delete j (heap s2)) s2)
      | Some (r, None, s2) => Some (r, s2)
      | None => None
      end
  end.

(** [wait_until_all_tasks_pushed] blocks in [m_is_all_task_pushed.wait(false)]:
    [Some true] when the call returns in state [s]. *)
Definition wait_until_all_tasks_pushed (j : JOBID) (s : World) : option bool :=
  match heap s !! j with
  | Some J => Some (m_is_all_task_pushed J)
  | None => None
  end.

(** The job whose object a step reads or writes, if any. *)
Definition event_subject (e : event) (s : World) : option N :=
  match e with
  | ENewJob j | EPushJob j | ERestartJob j => Some j
  | EPopJob _ | ETerminateBegin | ETerminateJoin | ETerminateEnd => None
  | EPushTask d | EPushWake d | EAllPushed d | EWaitTasks d
  | EAfterDone d | ESetDone d => fst <$> drivers s !! d
  | EWorkerPop _ => None
  | EWorkerProcess w | EWorkerDec w =>
      match workers s !! w with
      | Some (WProcess j) | Some (WDec j) => Some j
      | _ => None
      end
  end.

(** Driver threads of job [j] inside [Job::process] (in [push_task] or
    between two calls). *)
Definition pc_pushing (pc : driver_pc) : bool :=
  match pc with
  | DProcess | DPushWait => true
  | _ => false
  end.
Definition pushing (j : JOBID) (s : World) : nat :=
  countb (driver_at j pc_pushing) (drivers s).

(** The flags of a job against its drivers, in a run that follows the
    lifecycle: "all tasks pushed" is set exactly when the job has been
    activated and no driver of it is inside [Job::process]; a job that has
    been activated went through [push_job]. *)
Definition flags_inv (s : World) (j : JOBID) : Prop :=
  let J := job_at s j in
  pushing j s + Nat.b2n (m_is_all_task_pushed J)
  = (if decide (g_activations J = 0) then 0 else 1)
  /\ (g_activations J <> 0 -> m_conveyor J = true).

(** The tasks a step appends to the queue, and the task a step takes from
    its front. *)
Definition step_pushes (e : event) (s : World) : list N :=
  match e with
  | EPushTask d =>
      match drivers s !! d with
      | Some (j, DProcess) => if push_task_full s then [] else [j]
      | _ => []
      end
  | EPushWake d =>
      match drivers s !! d with
      | Some (j, DPushWait) => if push_task_room s then [j] else []
      | _ => []
      end
  | _ => []
  end.
Definition step_pops (e : event) (s : World) : list N :=
  match e with
  | EWorkerPop w =>
      match workers s !! w, m_tasks_queue s with
      | Some WWait, Some j :: _ => [j]
      | _, _ => []
      end
  | _ => []
  end.

(** The tasks appended, and the tasks taken, along a schedule, in order. *)
Fixpoint pushes (sched : list event) (s : World) : list N :=
  match sched with
  | [] => []
  | e :: sched' =>
      step_pushes e s
      ++ match exec e s with
         | Some s' => pushes sched' s'
         | None => []
         end
  end.
Fixpoint pops (sched : list event) (s : World) : list N :=
  match sched with
  | [] => []
  | e :: sched' =>
      step_pops e s
      ++ match exec e s with
         | Some s' => pops sched' s'
         | None => []
         end
  end.

(** Steps of [terminate] that clear the queue. *)
Definition is_clear (e : event) : bool :=
  match e with
  | ETerminateBegin | ETerminateEnd => true
  | _ => false
  end.

(** No [terminate] has started: the thread of [terminate] is idle, nothing
    was joined or destroyed, all handles are in [m_tasks], the queue holds
    tasks only and no worker has left its loop. *)
Definition never_terminated (n : nat) (s : World) : Prop :=
  term s = TIdle /\ g_joins s = [] /\ g_discarded s = []
  /\ m_tasks s = seq 0 n
  /\ length (workers s) = n
  /\ (forall i, m_tasks_queue s !! i <> Some None)
  /\ (forall w, workers s !! w <> Some WExit).

(** Every worker joined by [terminate] has left its loop. *)
Definition joined_exited (s : World) : Prop :=
  forall t, In t (g_joins s) -> workers s !! t = Some WExit.

(** One task, completion, restart. *)
Definition restart_after_done : list event :=
  one_task_done ++ [ERestartJob 1].

(** Steps of the engine's own threads (drivers and workers), as opposed to
    calls by the client. *)
Definition is_internal (e : event) : bool :=
  match e with
  | EPushWake _ | EAllPushed _ | EWaitTasks _ | EAfterDone _ | ESetDone _
  | EWorkerPop _ | EWorkerProcess _ | EWorkerDec _ => true
  | _ => false
  end.

(** [s] is a state of a run that follows the lifecycle and in which
    [terminate] was never called. *)
Definition reach (n : nat) (cap : Z) (s : World) : Prop :=
  exists sched,
    run sched (initial n cap) = Some s
    /\ lifecycle sched (initial n cap) = true
    /\ ~ In ETerminateBegin sched.

(** [s'] is reached from [s] by steps of drivers and workers alone. *)
Definition goes (s s' : World) : Prop :=
  exists sched, forallb is_internal sched = true /\ run sched s = Some s'.

(** A driver blocked in [push_task] means that a capacity is configured. *)
Definition pushwait_inv (s : World) : Prop :=
  forall d j, drivers s !! d = Some (j, DPushWait) -> m_max_tasks s <> 0%Z.

(** Every worker is at the top of its loop and the queue is empty. *)
Definition quiescent (s : World) : Prop :=
  m_tasks_queue s = []
  /\ forall w pc, workers s !! w = Some pc -> pc = WWait.

(** Between [s] and [s'] only worker [w], the queue and job objects may
    have changed. *)
Definition worker_frame (w : nat) (s s' : World) : Prop :=
  drivers s' = drivers s
  /\ m_max_tasks s' = m_max_tasks s
  /\ length (workers s') = length (workers s)
  /\ forall w', w' <> w -> workers s' !! w' = workers s !! w'.

(** A driver blocked in [push_task]: the queue holds one task and is full. *)
Definition blocked_push_schedule : list event :=
  [ENewJob 1; EPushJob 1; EPushTask 0; EPushTask 0].

(** Another job is submitted and works while job 1 is done; job 1's handle
    is submitted a second time. *)
Definition other_job_schedule : list event :=
  [ENewJob 2; EPushJob 2; EPushTask 1; EWorkerPop 0; EPushJob 1;
   EWorkerProcess 0; ETerminateBegin].
(** ** Counting lemmas *)

Section Counting.
Context {A : Type} (f : A -> bool).

Lemma countb_app (l1 l2 : list A) :
  countb f (l1 ++ l2) = countb f l1 + countb f l2.
Proof. induction l1 as [|x l1 IH]; simpl; [done | rewrite IH; lia]. Qed.

Lemma countb_insert (l : list A) (i : nat) (x y : A) :
  l !! i = Some x ->
  countb f (<[i := y]> l) + Nat.b2n (f x) = countb f l + Nat.b2n (f y).
Proof.
  revert i; induction l as [|a l IH]; intros [|i] Hi; simpl in *; try done.
  - injection Hi as ->. destruct (f x), (f y); simpl; lia.
  - specialize (IH i Hi). destruct (f a); simpl; lia.
Qed.

Lemma countb_replicate_false (n : nat) (x : A) :
  f x = false -> countb f (replicate n x) = 0.
Proof. intros Hx. induction n as [|n IH]; simpl; [done | by rewrite Hx, IH]. Qed.

Lemma countb_pos_lookup (l : list A) :
  0 < countb f l -> exists i x, l !! i = Some x /\ f x = true.
Proof.
  induction l as [|a l IH]; simpl; [lia |].
  destruct (f a) eqn:Ha; intros Hpos.
  - exists 0, a. done.
  - destruct (IH Hpos) as (i & x & Hi & Hx). exists (S i), x. done.
Qed.

Lemma countb_lookup_le (l : list A) (i : nat) (x : A) :
  l !! i = Some x -> Nat.b2n (f x) <= countb f l.
Proof.
  revert i; induction l as [|a l IH]; intros [|i] Hi; simpl in *; try done.
  - injection Hi as ->. destruct (f x); simpl; lia.
  - specialize (IH i Hi). lia.
Qed.
End Counting.

Lemma countb_tasks_of (j : JOBID) (q : list (option N)) :
  countb (N.eqb j) (tasks_of q) = countb (is_task_of j) q.
Proof.
  unfold tasks_of.
  induction q as [|[j'|] q IH]; cbn; [done | | done].
  rewrite IH. by rewrite (N.eqb_sym j j').
Qed.

(** ** Arithmetic of the wrapping counter *)

Lemma ULONG_MODULUS_pos : (0 < ULONG_MODULUS)%Z.
Proof. reflexivity. Qed.

Lemma counter_inc (c : Z) (p f : nat) :
  c = ((Z.of_nat p - Z.of_nat f) mod ULONG_MODULUS)%Z ->
  ((c + 1) mod ULONG_MODULUS)%Z
  = ((Z.of_nat (S p) - Z.of_nat f) mod ULONG_MODULUS)%Z.
Proof.
  intros ->. rewrite Zplus_mod_idemp_l. f_equal. lia.
Qed.

Lemma counter_dec (c : Z) (p f : nat) :
  c = ((Z.of_nat p - Z.of_nat f) mod ULONG_MODULUS)%Z ->
  ((c - 1) mod ULONG_MODULUS)%Z
  = ((Z.of_nat p - Z.of_nat (S f)) mod ULONG_MODULUS)%Z.
Proof.
  intros ->. rewrite Zminus_mod_idemp_l. f_equal. lia.
Qed.

Lemma counter_zero (c : Z) (p f : nat) :
  c = ((Z.of_nat p - Z.of_nat f) mod ULONG_MODULUS)%Z ->
  c = 0%Z -> f <= p -> (Z.of_nat p < ULONG_MODULUS)%Z ->
  f = p.
Proof.
  intros -> H0 Hle Hlt. rewrite Z.mod_small in H0; lia.
Qed.

(** Without wrap-around the counter is the number of tasks pushed and not
    yet counted down. *)
Lemma counter_exact (c : Z) (p f : nat) :
  c = ((Z.of_nat p - Z.of_nat f) mod ULONG_MODULUS)%Z ->
  f <= p -> (Z.of_nat p < ULONG_MODULUS)%Z ->
  c = Z.of_nat (p - f).
Proof.
  intros -> Hle Hlt. rewrite Z.mod_small; lia.
Qed.

(** ** Effect of the state updates on the observations *)

Lemma on_job_Some (j : JOBID) (f : Job -> Job) (s s' : World) :
  on_job j f s = Some s' ->
  exists J, heap s !! j = Some J /\ s' = with_heap (<[j := f J]> (heap s)) s.
Proof.
  unfold on_job. destruct (heap s !! j) as [J|]; [|done].
  intros [= <-]. by exists J.
Qed.

Lemma job_at_insert (s : World) (h : gmap N Job) (j j' : JOBID) (J : Job) :
  job_at (with_heap (<[j := J]> h) s) j'
  = if decide (j = j') then J else match h !! j' with Some J' => J' | None => Job_new end.
Proof.
  unfold job_at; simpl. rewrite lookup_insert. by destruct (decide (j = j')).
Qed.

Lemma job_at_lookup (s : World) (j : JOBID) (J : Job) :
  heap s !! j = Some J -> job_at s j = J.
Proof. unfold job_at. by intros ->. Qed.

(** ** Proof automation *)

(** Case analysis on an enabled step: every [match] of [exec] is resolved
    and the new state is substituted. *)
Ltac step_cases He :=
  unfold exec, push_job, pop_job, restart_job, exec_terminate_join, process_job, process_task,
    push_task_append, on_job in He;
  simpl in He;
  repeat (first
    [ rewrite lookup_insert_eq in He
    | progress simpl in He
    | match type of He with
      | context [match ?x with _ => _ end] =>
          match x with
          | context [match _ with _ => _ end] => fail 1
          | _ => destruct x eqn:?
          end
      end ]);
  simplify_eq;
  repeat match goal with
  | H : (_ =? _)%N = false |- _ => apply N.eqb_neq in H
  | H : (_ =? _)%N = true |- _ => apply N.eqb_eq in H
  end.

(** The counts over a list changed in one place, or extended. *)
Ltac count_facts :=
  repeat match goal with
  | Hw : ?l !! ?w = Some ?pc0 |- context [countb ?f (<[?w := ?pc]> ?l)] =>
      let H := fresh "Hc" in
      pose proof (countb_insert f l w pc0 pc Hw) as H; simpl in H;
      generalize dependent (countb f (<[w := pc]> l)); intros
  end;
  rewrite ?countb_app, ?countb_tasks_of; simpl.

Ltac eqb_cases :=
  repeat match goal with
  | H : context [(?a =? ?b)%N] |- _ => destruct (N.eqb_spec a b); simplify_eq; simpl in H
  | |- context [(?a =? ?b)%N] => destruct (N.eqb_spec a b); simplify_eq; simpl
  end.

(** Split a conjunction into its parts, and nothing else. *)
Ltac split_conj :=
  repeat match goal with |- _ /\ _ => split end.

(** A thread found at a program counter is counted there. *)
Ltac lookup_facts j :=
  repeat match goal with
  | Hd : drivers ?s !! ?d = Some ?x |- _ =>
      pose proof (countb_lookup_le (driver_at j (fun _ => true)) _ _ _ Hd);
      pose proof (countb_lookup_le (driver_at j pc_producing) _ _ _ Hd);
      pose proof (countb_lookup_le (driver_at j pc_in_hook) _ _ _ Hd);
      pose proof (countb_lookup_le (driver_at j pc_past_hook) _ _ _ Hd);
      revert Hd
  | Hw : workers ?s !! ?w = Some ?x |- _ =>
      pose proof (countb_lookup_le (is_WProcess j) _ _ _ Hw);
      pose proof (countb_lookup_le (is_WDec j) _ _ _ Hw);
      revert Hw
  end; intros.


(** ** The invariants are kept by every step *)

Lemma exec_accounting (e : event) (s s' : World) :
  exec e s = Some s' -> accounting s -> accounting s'.
Proof.
  intros He [Hnull Hinv].
  destruct e; step_cases He.
  all: split; [simpl; rewrite ?lookup_insert_ne; try done; try congruence|].
  all: intros j'; pose proof (Hinv j') as Hj';
    unfold job_inv, job_at, queued, processing, uncounted, discarded, started in *; simpl.
  all: rewrite ?lookup_insert; repeat case_decide; simplify_eq; simpl.
  all: try (repeat match goal with H : heap _ !! _ = _ |- _ => rewrite H in * end); simpl in *.
  all: try done.
  all: count_facts; unfold driver_at in *; simpl in *.
  all: try (repeat match goal with H : m_tasks_queue _ = _ |- _ => rewrite H in * end); simpl in *.
  all: eqb_cases; rewrite ?N.eqb_refl in *; simpl in *.
  all: try (destruct Hj' as (HA & HB & HC);
            split; [first [done | by apply counter_inc | by apply counter_dec] | lia]).
Qed.

Lemma exec_registry (e : event) (s s' : World) :
  exec e s = Some s' -> registry_inv s -> registry_inv s'.
Proof.
  intros He Hinv.
  destruct e; step_cases He.
  all: intros j' p'; pose proof (Hinv j' p') as Hj';
    unfold job_at in *; simpl.
  all: rewrite ?lookup_insert, ?lookup_delete; repeat case_decide; simplify_eq; simpl.
  all: try (repeat match goal with H : heap _ !! _ = _ |- _ => rewrite H in * end); simpl in *.
  all: try done.
  all: try (intros Hp; destruct (Hj' Hp) as [_ Hcv]; discriminate Hcv).
  all: try (intros [= <-]); try done.
  all: intros Hp; destruct (Hj' Hp); done.
Qed.

Lemma exec_phase (e : event) (s s' : World) :
  exec e s = Some s' -> client_ok e s = true ->
  accounting s -> (forall j, phase_inv s j) -> forall j, phase_inv s' j.
Proof.
  intros He Hok [Hnull Hacc] Hinv.
  destruct e; step_cases He.
  all: intros j'; pose proof (Hinv j') as Hj'; pose proof (Hacc j') as Ha';
    unfold phase_inv, tokens, job_inv, client_ok, is_done, job_at, queued, processing, uncounted,
      discarded, started, producing, in_hook, past_hook in *; simpl.
  all: rewrite ?lookup_insert; repeat case_decide; simplify_eq; simpl.
  all: try (repeat match goal with H : heap _ !! _ = _ |- _ => rewrite H in * end); simpl in *.
  all: try done.
  all: lookup_facts j'; count_facts; unfold driver_at in *; simpl in *.
  all: eqb_cases; rewrite ?N.eqb_refl in *; simpl in *.
  all: try (repeat match goal with H : heap _ !! _ = _ |- _ => rewrite H in * end); simpl in *.
  all: try (match goal with H : m_jobs_map _ !! _ = None |- _ => rewrite H in Hok end; by vm_compute in Hok).
  all: try match goal with H : m_is_done _ = true |- _ => rewrite H in *; simpl in * end.
  all: try (destruct Hj' as (HA & HB & HC & HP); destruct Ha' as (HD & HE & HF & HG);
            split; [lia | split; [lia | split; [|intros; lia]]]; intros;
            first [lia | apply HC; lia
                  | eapply counter_zero; [exact HD | by apply Z.eqb_eq | lia | lia] ]).
Qed.

(** ** Runs *)

Lemma initial_accounting (n : nat) (cap : Z) : accounting (initial n cap).
Proof.
  split; [done|]. intros j.
  unfold job_inv, job_at, queued, processing, uncounted, discarded, started; simpl.
  rewrite lookup_empty; simpl.
  by rewrite !countb_replicate_false.
Qed.

Lemma initial_phase (n : nat) (cap : Z) (j : JOBID) : phase_inv (initial n cap) j.
Proof.
  unfold phase_inv, tokens, job_at, producing, in_hook, past_hook; simpl.
  rewrite lookup_empty; simpl. split_conj; lia.
Qed.

Lemma run_app (sched1 sched2 : list event) (s : World) :
  run (sched1 ++ sched2) s
  = match run sched1 s with
    | Some s' => run sched2 s'
    | None => None
    end.
Proof.
  revert s; induction sched1 as [|e sched1 IH]; intros s; simpl; [done|].
  destruct (exec e s); [apply IH | done].
Qed.

Lemma lifecycle_app (sched1 sched2 : list event) (s s' : World) :
  run sched1 s = Some s' ->
  lifecycle (sched1 ++ sched2) s = lifecycle sched1 s && lifecycle sched2 s'.
Proof.
  revert s; induction sched1 as [|e sched1 IH]; intros s; simpl.
  - by intros [= ->].
  - destruct (exec e s) as [s1|]; [|done]. intros Hrun.
    rewrite (IH s1 Hrun). by rewrite andb_assoc.
Qed.

Lemma run_accounting (sched : list event) (s s' : World) :
  run sched s = Some s' -> accounting s -> accounting s'.
Proof.
  revert s; induction sched as [|e sched IH]; intros s; simpl.
  - by intros [= ->].
  - destruct (exec e s) as [s1|] eqn:He; [|done].
    intros Hrun Hacc. apply (IH s1 Hrun). by apply (exec_accounting e s).
Qed.

Lemma run_phase (sched : list event) (s s' : World) :
  run sched s = Some s' -> lifecycle sched s = true ->
  accounting s -> (forall j, phase_inv s j) ->
  forall j, phase_inv s' j.
Proof.
  revert s; induction sched as [|e sched IH]; intros s; simpl.
  - by intros [= ->].
  - destruct (exec e s) as [s1|] eqn:He; [|done].
    intros Hrun [Hok Hlc]%andb_true_iff Hacc Hph.
    apply (IH s1 Hrun Hlc).
    + by apply (exec_accounting e s).
    + by apply (exec_phase e s).
Qed.

(** Every state of a run that follows the lifecycle satisfies both
    invariants. *)
Lemma reachable_inv (n : nat) (cap : Z) (sched : list event) (s : World) :
  run sched (initial n cap) = Some s ->
  lifecycle sched (initial n cap) = true ->
  accounting s /\ forall j, phase_inv s j.
Proof.
  intros Hrun Hlc. split.
  - apply (run_accounting _ _ _ Hrun), initial_accounting.
  - apply (run_phase _ _ _ Hrun Hlc); [apply initial_accounting|].
    apply initial_phase.
Qed.

Lemma MultiTask_new_initial (task_threads max_tasks hw : Z) (s0 : World) :
  MultiTask_new task_threads max_tasks hw = Some s0 ->
  s0 = initial (Z.to_nat (task_threads_count task_threads hw)) max_tasks.
Proof.
  unfold MultiTask_new, init. case_match; [done|]. by intros [= <-].
Qed.

(** What the two invariants say about a job whose done flag is set. *)
Lemma done_job_complete (s : World) (j : JOBID) :
  accounting s -> phase_inv s j ->
  m_is_done (job_at s j) = true ->
  (Z.of_nat (g_pushed (job_at s j)) < ULONG_MODULUS)%Z ->
  g_finished (job_at s j) = g_pushed (job_at s j)
  /\ g_executed (job_at s j) = g_pushed (job_at s j)
  /\ queued j s = 0 /\ processing j s = 0 /\ uncounted j s = 0
  /\ discarded j s = 0.
Proof.
  intros [_ Hacc] (Htok & Hact & Hfin & _) Hdone Hlt.
  destruct (Hacc j) as (Hc & Hx & Hp & _).
  rewrite Hdone in Hfin. simpl in Hfin.
  assert (g_finished (job_at s j) = g_pushed (job_at s j)) as Heq
    by (apply Hfin; [lia | done]).
  lia.
Qed.

Lemma done_job_hooks (s : World) (j : JOBID) :
  phase_inv s j ->
  m_is_done (job_at s j) = true ->
  g_hooks (job_at s j) = g_activations (job_at s j)
  /\ 0 < g_activations (job_at s j)
  /\ producing j s = 0 /\ in_hook j s = 0 /\ past_hook j s = 0.
Proof.
  intros (Htok & Hact & _) Hdone. unfold tokens in Htok.
  rewrite Hdone in Htok. simpl in Htok.
  case_decide; lia.
Qed.

Lemma wait_job_done_true (j : JOBID) (s : World) :
  j <> nullptr -> wait_job_done j s = Some true ->
  m_is_done (job_at s j) = true.
Proof.
  unfold wait_job_done, job_at, is_done. intros Hj.
  destruct (N.eqb_spec j nullptr); [done|].
  destruct (heap s !! j); [|done]. by intros [= ->].
Qed.

Lemma initial_registry (n : nat) (cap : Z) : registry_inv (initial n cap).
Proof. intros j p. simpl. by rewrite lookup_empty. Qed.

Lemma run_registry (sched : list event) (s s' : World) :
  run sched s = Some s' -> registry_inv s -> registry_inv s'.
Proof.
  revert s; induction sched as [|e sched IH]; intros s; simpl.
  - by intros [= ->].
  - destruct (exec e s) as [s1|] eqn:He; [|done].
    intros Hrun Hreg. apply (IH s1 Hrun). by apply (exec_registry e s).
Qed.

(** A handle whose job differs from a freshly constructed one has an
    object. *)
Lemma job_at_heap (s : World) (j : JOBID) :
  job_at s j <> Job_new -> exists J, heap s !! j = Some J /\ job_at s j = J.
Proof.
  unfold job_at. destruct (heap s !! j) as [J|]; [|done]. by exists J.
Qed.

Lemma registered_job (s : World) (j : JOBID) :
  accounting s -> registry_inv s -> is_Some (m_jobs_map s !! j) ->
  j <> nullptr /\ m_jobs_map s !! j = Some j
  /\ exists J, heap s !! j = Some J /\ m_conveyor J = true.
Proof.
  intros [Hnull _] Hreg [p Hp]. destruct (Hreg j p Hp) as [-> Hcv].
  destruct (job_at_heap s j) as (J & HJ & HJ').
  { intros Heq. by rewrite Heq in Hcv. }
  rewrite HJ' in Hcv. repeat split; [congruence | done | by exists J].
Qed.

Lemma with_heap_id (s : World) : with_heap (heap s) s = s.
Proof. by destruct s. Qed.

Lemma set_conveyor_id (J : Job) : m_conveyor J = true -> set_conveyor J = J.
Proof. destruct J; simpl. by intros ->. Qed.

(** ** Capacity of the queue *)

Lemma exec_cap (cap : Z) (e : event) (s s' : World) :
  exec e s = Some s' -> cap_inv cap s -> cap_inv cap s'.
Proof.
  intros He [Hcap Hlen].
  destruct e; step_cases He.
  all: unfold push_task_full, push_task_room in *; simpl in *.
  all: split; simpl; [done|]; intros Hpos; specialize (Hlen Hpos).
  all: try done.
  all: repeat match goal with
       | H : m_tasks_queue _ = _ |- _ => rewrite H in *; simpl in *
       | H : _ && _ = false |- _ => apply andb_false_iff in H as [H|H]
       | H : negb _ = false |- _ => apply negb_false_iff in H
       | H : (_ =? _)%Z = true |- _ => apply Z.eqb_eq in H
       | H : (_ =? _)%Z = false |- _ => apply Z.eqb_neq in H
       | H : (_ <? _)%Z = true |- _ => apply Z.ltb_lt in H
       end.
  all: rewrite ?length_app; simpl; lia.
Qed.

Lemma run_cap (cap : Z) (sched : list event) (s s' : World) :
  run sched s = Some s' -> cap_inv cap s -> cap_inv cap s'.
Proof.
  revert s; induction sched as [|e sched IH]; intros s; simpl.
  - by intros [= ->].
  - destruct (exec e s) as [s1|] eqn:He; [|done].
    intros Hrun Hinv. apply (IH s1 Hrun). by apply (exec_cap cap e s).
Qed.

Lemma initial_cap (n : nat) (cap : Z) : cap_inv cap (initial n cap).
Proof. split; simpl; [done | lia]. Qed.

(** The job of a driver thread has an object. *)
Lemma driver_job_in_heap (s : World) (d : nat) (j : JOBID) (pc : driver_pc) :
  accounting s -> drivers s !! d = Some (j, pc) ->
  exists J, heap s !! j = Some J.
Proof.
  intros [_ Hacc] Hd. destruct (Hacc j) as (_ & _ & _ & Hs).
  pose proof (countb_lookup_le (driver_at j (fun _ => true)) _ _ _ Hd) as Hle.
  unfold driver_at in Hle. simpl in Hle. rewrite N.eqb_refl in Hle. simpl in Hle.
  destruct (job_at_heap s j) as (J & HJ & _); [|by exists J].
  intros Heq. rewrite Heq in Hs. unfold started, driver_at in Hs. simpl in Hs. lia.
Qed.

Lemma push_task_append_queue (j : JOBID) (s : World) (J : Job) :
  heap s !! j = Some J ->
  exists s', push_task_append j s = Some s'
    /\ m_tasks_queue s' = m_tasks_queue s ++ [Some j]
    /\ drivers s' = drivers s
    /\ m_max_tasks s' = m_max_tasks s
    /\ heap s' = <[j := inc_task_count J]> (heap s).
Proof.
  intros HJ. unfold push_task_append, on_job. simpl. rewrite HJ. by eexists.
Qed.

(** With capacity zero a driver can push any number of tasks in a row. *)
Lemma push_many (k : nat) (s : World) :
  m_max_tasks s = 0%Z -> drivers s !! 0 = Some (1%N, DProcess) ->
  is_Some (heap s !! 1%N) ->
  exists s', run (replicate k (EPushTask 0)) s = Some s'
    /\ length (m_tasks_queue s') = length (m_tasks_queue s) + k.
Proof.
  revert s; induction k as [|k IH]; intros s Hcap Hd [J HJ]; simpl.
  - exists s. split; [done | lia].
  - rewrite Hd. simpl. unfold push_task_full. rewrite Hcap. simpl.
    destruct (push_task_append_queue 1 s J HJ) as (s1 & -> & Hq & Hdr & Hm & Hh).
    destruct (IH s1) as (s' & Hrun & Hlen).
    + congruence.
    + congruence.
    + rewrite Hh, lookup_insert_eq. by eexists.
    + exists s'. split; [done|]. rewrite Hlen, Hq, length_app. simpl. lia.
Qed.

(** ** History counters only grow *)

Lemma exec_history_le (j : JOBID) (e : event) (s s' : World) :
  exec e s = Some s' -> history_le j s s'.
Proof.
  intros He. destruct e; step_cases He.
  all: unfold history_le, job_at, discarded; simpl.
  all: rewrite ?lookup_insert; repeat case_decide; simplify_eq; simpl.
  all: try (repeat match goal with H : heap _ !! _ = _ |- _ => rewrite H in * end); simpl in *.
  all: rewrite ?countb_app; lia.
Qed.

Lemma run_history_le (j : JOBID) (sched : list event) (s s' : World) :
  run sched s = Some s' -> history_le j s s'.
Proof.
  revert s; induction sched as [|e sched IH]; intros s; simpl.
  - intros [= ->]. unfold history_le. lia.
  - destruct (exec e s) as [s1|] eqn:He; [|done]. intros Hrun.
    pose proof (exec_history_le j e s s1 He) as H1.
    pose proof (IH s1 Hrun) as H2. unfold history_le in *. lia.
Qed.

(** The hook counter of a job moves only while one of its drivers is
    inside [process_after_done]. *)
Lemma exec_hooks_frozen (j : JOBID) (e : event) (s s' : World) :
  exec e s = Some s' -> in_hook j s = 0 ->
  g_hooks (job_at s' j) = g_hooks (job_at s j).
Proof.
  intros He Hin. destruct e; step_cases He.
  all: unfold job_at, in_hook in *; simpl.
  all: rewrite ?lookup_insert; repeat case_decide; simplify_eq; simpl.
  all: try (repeat match goal with H : heap _ !! _ = _ |- _ => rewrite H in * end); simpl in *.
  all: try done.
  lookup_facts j. unfold driver_at in *. simpl in *.
  rewrite N.eqb_refl in *. simpl in *. lia.
Qed.

(** A job one of whose tasks was destroyed is not done, and none of its
    drivers is past the loop on the counter. *)
Lemma discarded_blocks (s : World) (j : JOBID) :
  accounting s -> phase_inv s j -> 0 < discarded j s ->
  (Z.of_nat (g_pushed (job_at s j)) < ULONG_MODULUS)%Z ->
  in_hook j s + past_hook j s = 0
  /\ m_is_done (job_at s j) = false
  /\ m_running_tasks (job_at s j)
     = Z.of_nat (queued j s + processing j s + uncounted j s + discarded j s).
Proof.
  intros [_ Hacc] (Htok & Hact & Hfin & _) Hdis Hlt.
  destruct (Hacc j) as (Hc & Hx & Hp & _).
  assert (in_hook j s + past_hook j s + Nat.b2n (m_is_done (job_at s j)) = 0) as H0.
  { destruct (decide (0 < in_hook j s + past_hook j s
                          + Nat.b2n (m_is_done (job_at s j)))) as [Hpos|]; [|lia].
    specialize (Hfin Hpos Hlt). lia. }
  split; [lia|]. split.
  - destruct (m_is_done (job_at s j)); [simpl in H0; lia | done].
  - rewrite (counter_exact _ _ _ Hc); [f_equal | |]; lia.
Qed.

Lemma run_hooks_frozen (j : JOBID) (sched : list event) (s s' : World) :
  run sched s = Some s' -> lifecycle sched s = true ->
  accounting s -> (forall j, phase_inv s j) ->
  0 < discarded j s ->
  (Z.of_nat (g_pushed (job_at s' j)) < ULONG_MODULUS)%Z ->
  g_hooks (job_at s' j) = g_hooks (job_at s j).
Proof.
  revert s; induction sched as [|e sched IH]; intros s; simpl.
  - by intros [= ->].
  - destruct (exec e s) as [s1|] eqn:He; [|done].
    intros Hrun [Hok Hlc]%andb_true_iff Hacc Hph Hdis Hlt.
    pose proof (exec_history_le j e s s1 He) as (_ & Hp1 & _ & Hd1).
    pose proof (run_history_le j sched s1 s' Hrun) as (_ & Hp2 & _ & _).
    destruct (discarded_blocks s j Hacc (Hph j) Hdis) as (Hin & _); [lia|].
    rewrite (IH s1 Hrun Hlc); try done.
    + apply (exec_hooks_frozen j e s s1 He). lia.
    + by apply (exec_accounting e s).
    + by apply (exec_phase e s).
    + lia.
Qed.

(** ** A task held by a worker keeps the counter away from zero *)

Lemma running_task_counted (s : World) (j : JOBID) :
  accounting s -> 0 < queued j s + processing j s + uncounted j s ->
  (Z.of_nat (g_pushed (job_at s j)) < ULONG_MODULUS)%Z ->
  check_job_is_done j s = Some false.
Proof.
  intros [Hnull Hacc] Hpos Hlt.
  destruct (Hacc j) as (Hc & Hx & Hp & _).
  destruct (job_at_heap s j) as (J & HJ & HJ').
  { intros Heq. rewrite Heq in Hx, Hp. simpl in Hx, Hp. lia. }
  unfold check_job_is_done, get_task_count.
  destruct (N.eqb_spec j nullptr) as [->|]; [congruence|].
  rewrite HJ. f_equal. apply Z.eqb_neq.
  rewrite <- HJ', (counter_exact _ _ _ Hc); lia.
Qed.

(** ** The start of an activation *)

(** A step that starts a driver for job [j] (the only steps that change
    [g_activations]) finds, in a run that follows the lifecycle, a job with
    nothing outstanding: every task pushed so far has been processed and the
    hook has run for every earlier activation.  The step itself pushes,
    processes and runs nothing. *)
Lemma activation_start (e : event) (s s' : World) (j : JOBID) :
  exec e s = Some s' -> client_ok e s = true ->
  accounting s -> phase_inv s j ->
  g_activations (job_at s' j) <> g_activations (job_at s j) ->
  (Z.of_nat (g_pushed (job_at s j)) < ULONG_MODULUS)%Z ->
  g_activations (job_at s' j) = S (g_activations (job_at s j))
  /\ g_hooks (job_at s j) = g_activations (job_at s j)
  /\ g_executed (job_at s j) = g_pushed (job_at s j)
  /\ g_pushed (job_at s' j) = g_pushed (job_at s j)
  /\ g_executed (job_at s' j) = g_executed (job_at s j)
  /\ g_hooks (job_at s' j) = g_hooks (job_at s j).
Proof.
  intros He Hok [_ Hacc] Hph Hne Hlt.
  pose proof (Hacc j) as Ha. clear Hacc.
  destruct e; step_cases He.
  all: unfold phase_inv, tokens, job_inv, client_ok, is_done, job_at in *; simpl in *.
  all: revert Hne; rewrite ?lookup_insert; repeat case_decide; simplify_eq; simpl.
  all: try (repeat match goal with H : heap _ !! _ = _ |- _ => rewrite H in * end); simpl in *.
  all: try done.
  all: intros _.
  all: try (match goal with H : m_jobs_map _ !! _ = None |- _ => rewrite H in Hok end;
            by vm_compute in Hok).
  all: try (match goal with H : m_jobs_map _ !! _ = None |- _ => rewrite H in Hok end;
            simpl in Hok; apply bool_decide_eq_true in Hok).
  all: try (destruct (N.eqb_spec j nullptr); [done|]; simpl in Hok).
  all: destruct Hph as (HA & HB & HC & HP); destruct Ha as (HD & HE & HF & HG).
  all: try (rewrite Hok in *; simpl in *).
  all: try (destruct (decide (g_activations _ = 0)); [lia|]).
  all: try (specialize (HP Hok)).
  all: try (assert (g_finished j1 = g_pushed j1) by (apply HC; [lia | done])).
  all: split_conj; lia.
Qed.

(** ** Shutdown *)

Lemma exec_term (n : nat) (e : event) (s s' : World) :
  exec e s = Some s' -> term_inv n s -> term_inv n s'.
Proof.
  intros He (Hlen & Hhd & Hjoin).
  destruct e; step_cases He.
  all: unfold term_inv; cbn [term m_tasks m_tasks_queue workers g_joins
         with_term with_tasks with_queue with_workers with_joins with_heap
         with_drivers with_jobs_map with_discarded set_worker set_driver
         spawn_driver terminate_begin terminate_end];
       rewrite ?length_insert.
  all: try done.
  - (* ETerminateBegin *)
    split_conj; try done.
    destruct Hjoin as [[? ?]|(? & ? & ?)]; [left | right]; split_conj; try done; lia.
  - (* ETerminateJoin *)
    split_conj; try done.
    destruct Hjoin as [(Hm & Hk & Hj)|(Hm & _)].
    + left. rewrite Hm in Heqo. apply lookup_seq in Heqo as [-> Hlt].
      split_conj; [done | lia |]. by rewrite seq_S, Hj.
    + by rewrite Hm in Heqo.
  - (* ETerminateEnd *)
    split_conj; try done. right.
    destruct Hjoin as [(Hm & Hk & Hj)|(Hm & Hj & _)]; split_conj; try done.
    by rewrite Hj, Hm, length_seq.
  - (* push_task appends *)
    split_conj; try done. destruct (term s); [done|].
    by destruct (m_tasks_queue s).
  - split_conj; try done. destruct (term s); [done|].
    by destruct (m_tasks_queue s).
  - (* a worker takes a task *)
    split_conj; try done. destruct (term s); [done|]. done.
  - (* a worker sees the null task *)
    split_conj; try done. by rewrite Heql.
Qed.


Lemma run_term (n : nat) (sched : list event) (s s' : World) :
  run sched s = Some s' -> term_inv n s -> term_inv n s'.
Proof.
  revert s; induction sched as [|e sched IH]; intros s; simpl.
  - by intros [= ->].
  - destruct (exec e s) as [s1|] eqn:He; [|done].
    intros Hrun Hinv. apply (IH s1 Hrun). by apply (exec_term n e s).
Qed.

Lemma initial_term (n : nat) (cap : Z) : term_inv n (initial n cap).
Proof.
  unfold term_inv; simpl. rewrite length_replicate. split_conj; try done.
  by left.
Qed.

(** The job of a task held by a worker has an object. *)
Lemma worker_job_in_heap (s : World) (w : nat) (j : JOBID) :
  accounting s ->
  workers s !! w = Some (WProcess j) \/ workers s !! w = Some (WDec j) ->
  exists J, heap s !! j = Some J.
Proof.
  intros [_ Hacc] Hw. destruct (Hacc j) as (_ & Hx & Hp & _).
  destruct (job_at_heap s j) as (J & HJ & _); [|by exists J].
  intros Heq. rewrite Heq in Hx, Hp. simpl in Hx, Hp.
  unfold processing, uncounted in *.
  destruct Hw as [Hw|Hw].
  - pose proof (countb_lookup_le (is_WProcess j) _ _ _ Hw) as Hle.
    simpl in Hle. rewrite N.eqb_refl in Hle. simpl in Hle. lia.
  - pose proof (countb_lookup_le (is_WDec j) _ _ _ Hw) as Hle.
    simpl in Hle. rewrite N.eqb_refl in Hle. simpl in Hle. lia.
Qed.

Lemma run_cons (e : event) (sched : list event) (s : World) :
  run (e :: sched) s
  = match exec e s with
    | Some s' => run sched s'
    | None => None
    end.
Proof. reflexivity. Qed.

(** Once the null task is at the front of the queue, a worker finishes the
    task it holds, if any, and leaves its loop; nothing else changes for the
    thread in [terminate]. *)
Lemma worker_can_exit (s : World) (w : nat) (pc : worker_pc) :
  accounting s -> workers s !! w = Some pc ->
  hd_error (m_tasks_queue s) = Some None ->
  exists s', run (worker_exit_schedule w pc) s = Some s'
    /\ workers s' !! w = Some WExit
    /\ term s' = term s /\ m_tasks s' = m_tasks s
    /\ g_joins s' = g_joins s.
Proof.
  intros Hacc Hw Hhd.
  assert (forall t, workers t !! w = Some WWait ->
            hd_error (m_tasks_queue t) = Some None ->
            exists s', run [EWorkerPop w] t = Some s'
              /\ workers s' !! w = Some WExit
              /\ term s' = term t /\ m_tasks s' = m_tasks t
              /\ g_joins s' = g_joins t) as Hpop.
  { intros t Ht Hq. simpl. rewrite Ht. simpl.
    destruct (m_tasks_queue t) as [|[j|] q]; try done.
    eexists. split_conj; try done. simpl.
    apply list_lookup_insert_eq. by eapply lookup_lt_Some. }
  assert (forall t j, accounting t -> workers t !! w = Some (WDec j) ->
            hd_error (m_tasks_queue t) = Some None ->
            exists s', run [EWorkerDec w; EWorkerPop w] t = Some s'
              /\ workers s' !! w = Some WExit
              /\ term s' = term t /\ m_tasks s' = m_tasks t
              /\ g_joins s' = g_joins t) as Hdec.
  { intros t j Ht Hwt Hq.
    destruct (worker_job_in_heap t w j Ht) as [J HJ]; [by right|].
    destruct (Hpop (with_heap (<[j := dec_task_count J]> (heap t))
                      (set_worker w WWait t))) as (s' & Hr & ?); [|done|].
    { simpl. apply list_lookup_insert_eq. by eapply lookup_lt_Some. }
    exists s'. split; [|done].
    rewrite run_cons. simpl exec. rewrite Hwt. simpl. unfold on_job. simpl.
    by rewrite HJ. }
  destruct pc as [|j|j|]; simpl worker_exit_schedule.
  - by apply Hpop.
  - destruct (worker_job_in_heap s w j Hacc) as [J HJ]; [by left|].
    assert (exec (EWorkerProcess w) s
            = Some (with_heap (<[j := task_processed J]> (heap s))
                      (set_worker w (WDec j) s))) as He.
    { simpl. rewrite Hw. simpl. unfold on_job. simpl. by rewrite HJ. }
    destruct (Hdec _ j (exec_accounting _ _ _ He Hacc)) as (s' & Hr & ?); [|done|].
    { simpl. apply list_lookup_insert_eq. by eapply lookup_lt_Some. }
    exists s'. split; [|done].
    rewrite run_cons. by rewrite He.
  - by apply (Hdec s j).
  - exists s. by split_conj.
Qed.

(** A [terminate] that is joining can always be brought to its end: the
    workers not yet joined leave their loops one after the other and are
    joined in the order of [m_tasks]. *)
Lemma terminate_can_finish (n : nat) (cap : Z) (m : nat) :
  forall k sched0 s,
    run sched0 (initial n cap) = Some s ->
    term s = TJoin k -> m_tasks s = seq 0 n -> k + m = n ->
    exists sched s',
      run sched s = Some s' /\ term s' = TIdle /\ m_tasks s' = []
      /\ m_tasks_queue s' = [] /\ g_joins s' = seq 0 n.
Proof.
  induction m as [|m IH]; intros k sched0 s Hrun Hterm Hm Hk.
  - destruct (run_term n _ _ _ Hrun (initial_term n cap)) as (Hlen & Hhd & Hj).
    rewrite Hterm in Hj.
    assert (g_joins s = seq 0 n) as Hjoins.
    { destruct Hj as [(_ & _ & Hj)|(_ & Hj & _)]; [|done].
      rewrite Hj. f_equal. lia. }
    exists [ETerminateEnd], (terminate_end s). split_conj; try done.
    simpl. rewrite Hterm, Hm, length_seq.
    destruct (decide (k = n)); [done | lia].
  - destruct (run_term n _ _ _ Hrun (initial_term n cap)) as (Hlen & Hhd & Hj).
    pose proof (run_accounting _ _ _ Hrun (initial_accounting n cap)) as Hacc.
    rewrite Hterm in Hhd.
    destruct (lookup_lt_is_Some_2 (workers s) k) as [pc Hpc]; [lia|].
    destruct (worker_can_exit s k pc Hacc Hpc Hhd)
      as (sa & Hra & Hwa & Hta & Hma & Hja).
    assert (run (sched0 ++ worker_exit_schedule k pc) (initial n cap) = Some sa) as Hrun_a
      by (by rewrite run_app, Hrun).
    assert (exec ETerminateJoin sa
            = Some (with_term (TJoin (S k)) (with_joins (g_joins sa ++ [k]) sa))) as Hjoin.
    { simpl. rewrite Hta, Hterm. unfold exec_terminate_join.
      rewrite Hma, Hm, lookup_seq_lt by lia. simpl. by rewrite Hwa. }
    destruct (IH (S k) (sched0 ++ worker_exit_schedule k pc ++ [ETerminateJoin])
                 (with_term (TJoin (S k)) (with_joins (g_joins sa ++ [k]) sa)))
      as (sched_c & s' & Hrc & Hres); try done.
    { rewrite app_assoc, run_app, Hrun_a. simpl run. fold (exec ETerminateJoin sa).
      by rewrite Hjoin. }
    { simpl. congruence. }
    { lia. }
    exists (worker_exit_schedule k pc ++ ETerminateJoin :: sched_c), s'.
    split; [|done].
    rewrite run_app, Hra, run_cons, Hjoin. exact Hrc.
Qed.

Lemma terminate_twice_same (s : World) :
  term s = TIdle -> m_tasks s = [] -> m_tasks_queue s = [] ->
  terminate_end (terminate_begin s) = s.
Proof.
  destruct s; simpl. intros -> -> ->.
  unfold terminate_end, terminate_begin; simpl.
  by rewrite !app_nil_r.
Qed.

(** ** Completion of a job *)

(** C1.  Take a run that follows the job lifecycle, a step [e] in it that
    starts a driver for job [j] ([push_job] or [restart_job]: the steps that
    change [g_activations]), and a later state [s] of the same activation in
    which [wait_job_done j] returns.  Let [N] be the number of tasks the
    production step pushed since [e].  Then exactly [N] tasks of the job have
    been processed since [e]; no task of the job is queued, in a worker or
    destroyed, and all have been counted down; [process_after_done] has
    returned exactly once since [e]; and no driver of the job is before,
    inside or just after the hook, so the hook had returned when the flag was
    raised.  The hypothesis on [g_pushed] excludes a wrap-around of the
    counter. *)
Theorem wait_job_done_returns_after_tasks_and_hook
    (n : nat) (cap : Z) (sched sched' : list event) (e : event)
    (s_prev s0 s : World) (j : JOBID) :
  run sched (initial n cap) = Some s_prev ->
  exec e s_prev = Some s0 ->
  g_activations (job_at s0 j) <> g_activations (job_at s_prev j) ->
  run sched' s0 = Some s ->
  lifecycle (sched ++ e :: sched') (initial n cap) = true ->
  g_activations (job_at s j) = g_activations (job_at s0 j) ->
  j <> nullptr ->
  wait_job_done j s = Some true ->
  (Z.of_nat (g_pushed (job_at s j)) < ULONG_MODULUS)%Z ->
  g_pushed (job_at s_prev j) <= g_pushed (job_at s j)
  /\ g_executed (job_at s j) - g_executed (job_at s_prev j)
     = g_pushed (job_at s j) - g_pushed (job_at s_prev j)
  /\ g_executed (job_at s j) = g_pushed (job_at s j)
  /\ g_finished (job_at s j) = g_pushed (job_at s j)
  /\ queued j s + processing j s + uncounted j s + discarded j s = 0
  /\ g_hooks (job_at s j) = S (g_hooks (job_at s_prev j))
  /\ producing j s + in_hook j s + past_hook j s = 0.
Proof.
  intros Hrun He Hact Hrun' Hlc Hsame Hj Hwait Hlt.
  rewrite (lifecycle_app _ _ _ _ Hrun) in Hlc. simpl in Hlc. rewrite He in Hlc.
  apply andb_true_iff in Hlc as [Hlc1 [Hok Hlc2]%andb_true_iff].
  destruct (reachable_inv n cap sched s_prev Hrun Hlc1) as [Hacc0 Hph0].
  pose proof (exec_history_le j e s_prev s0 He) as (_ & Hp1 & _).
  pose proof (run_history_le j sched' s0 s Hrun') as (_ & Hp2 & _).
  destruct (activation_start e s_prev s0 j He Hok Hacc0 (Hph0 j) Hact)
    as (Ha & Hh0 & Hx0 & _); [lia|].
  pose proof (exec_accounting _ _ _ He Hacc0) as Hacc1.
  pose proof (exec_phase _ _ _ He Hok Hacc0 Hph0) as Hph1.
  pose proof (run_accounting _ _ _ Hrun' Hacc1) as Hacc.
  pose proof (run_phase _ _ _ Hrun' Hlc2 Hacc1 Hph1) as Hph.
  apply wait_job_done_true in Hwait; [|done].
  destruct (done_job_complete s j Hacc (Hph j) Hwait Hlt) as (? & ? & ? & ? & ? & ?).
  destruct (done_job_hooks s j (Hph j) Hwait) as (? & ? & ? & ? & ?).
  split_conj; lia.
Qed.

Lemma wait_job_done_returns_after_tasks_and_hook_witness :
  exists s_prev s0 s,
    run [ENewJob 1] (initial 2 0) = Some s_prev
    /\ exec (EPushJob 1) s_prev = Some s0
    /\ run three_task_schedule s0 = Some s
    /\ g_pushed (job_at s 1) - g_pushed (job_at s_prev 1) = 3
    /\ g_executed (job_at s 1) - g_executed (job_at s_prev 1) = 3
    /\ g_hooks (job_at s 1) = S (g_hooks (job_at s_prev 1))
    /\ producing 1 s + in_hook 1 s + past_hook 1 s = 0.
Proof.
  do 3 eexists.
  split; [vm_compute; reflexivity|].
  split; [vm_compute; reflexivity|].
  split; [vm_compute; reflexivity|].
  split; [vm_compute; reflexivity|].
  pose proof (fun s_prev s0 s =>
    wait_job_done_returns_after_tasks_and_hook 2 0 [ENewJob 1] three_task_schedule
      (EPushJob 1) s_prev s0 s 1%N) as H.
  edestruct H as (_ & Hn & _ & _ & _ & Hh & Hd).
  - vm_compute. reflexivity.
  - vm_compute. reflexivity.
  - vm_compute. discriminate.
  - vm_compute. reflexivity.
  - vm_compute. reflexivity.
  - vm_compute. reflexivity.
  - discriminate.
  - vm_compute. reflexivity.
  - vm_compute. reflexivity.
  - split; [|split; [exact Hh | exact Hd]].
    rewrite Hn. vm_compute. reflexivity.
Defined.

(** ** Submitting a registered handle again *)

(** C3 as stated fails: the rejection of a registered handle is not told
    apart from a success by what [push_job] returns.  Both calls return the
    job's pointer. *)
Lemma push_job_duplicate_returns_like_success :
  exists s_new s_dup r_new r_dup c_new c_dup s1 s2,
    run [ENewJob 1] (initial 1 0) = Some s_new
    /\ m_jobs_map s_new !! 1%N = None
    /\ run [ENewJob 1; EPushJob 1] (initial 1 0) = Some s_dup
    /\ m_jobs_map s_dup !! 1%N = Some 1%N
    /\ push_job 1 s_new = Some (r_new, c_new, s1)
    /\ push_job 1 s_dup = Some (r_dup, c_dup, s2)
    /\ r_dup = r_new /\ r_dup <> nullptr.
Proof.
  do 8 eexists.
  split_conj; try (vm_compute; reflexivity); discriminate.
Qed.

(** C3, amended.  In every reachable state, [push_job] on a registered
    handle changes nothing at all (registry, threads, job objects), and the
    caller's [unique_ptr] still owns the job.  It returns the job's pointer,
    as a successful submission does; the two outcomes differ in the caller's
    [unique_ptr], which a successful submission leaves empty while it
    registers the job and starts a driver. *)
Theorem push_job_registered_handle
    (n : nat) (cap : Z) (sched : list event) (s : World) (j : JOBID) :
  run sched (initial n cap) = Some s ->
  is_Some (m_jobs_map s !! j) ->
  push_job j s = Some (j, Some j, s)
  /\ forall s0 J, heap s0 !! j = Some J -> m_jobs_map s0 !! j = None ->
       exists s', push_job j s0 = Some (j, None, s')
         /\ m_jobs_map s' = <[j := j]> (m_jobs_map s0)
         /\ drivers s' = drivers s0 ++ [(j, DProcess)].
Proof.
  intros Hrun Hreg.
  pose proof (run_accounting _ _ _ Hrun (initial_accounting n cap)) as Hacc.
  pose proof (run_registry _ _ _ Hrun (initial_registry n cap)) as Hri.
  destruct (registered_job s j Hacc Hri Hreg) as (_ & Hm & J & HJ & Hcv).
  split.
  - unfold push_job, on_job. rewrite HJ. simpl. rewrite Hm.
    rewrite (set_conveyor_id J Hcv), (insert_id _ _ _ HJ).
    by rewrite with_heap_id.
  - intros s0 J0 HJ0 Hm0. unfold push_job, on_job. rewrite HJ0. simpl.
    rewrite Hm0, lookup_insert_eq. by eexists.
Qed.

Lemma push_job_registered_handle_witness :
  exists s,
    run [ENewJob 1; EPushJob 1] (initial 1 0) = Some s
    /\ push_job 1 s = Some (1%N, Some 1%N, s)
    /\ forall s0 J, heap s0 !! 1%N = Some J -> m_jobs_map s0 !! 1%N = None ->
         exists s', push_job 1 s0 = Some (1%N, None, s')
           /\ m_jobs_map s' = <[1%N := 1%N]> (m_jobs_map s0)
           /\ drivers s' = drivers s0 ++ [(1%N, DProcess)].
Proof.
  eexists. split; [vm_compute; reflexivity|].
  apply (push_job_registered_handle 1 0 [ENewJob 1; EPushJob 1]).
  - vm_compute. reflexivity.
  - vm_compute. eexists. reflexivity.
Defined.

(** ** Null and unknown handles *)

(** C7 as stated fails for handles that are not null and not registered:
    [restart_job] resets the job object and starts a driver, [wait_job_done]
    blocks on its flag, [check_job_is_done] reads its counter; a handle
    without object is dereferenced all the same. *)
Lemma unknown_handle_not_benign :
  exists s1 s2,
    run [ENewJob 1] (initial 1 0) = Some s1
    /\ m_jobs_map s1 !! 1%N = None
    /\ restart_job 1 s1 <> Some s1
    /\ wait_job_done 1 s1 = Some false
    /\ m_jobs_map s1 !! 2%N = None
    /\ restart_job 2 s1 = None
    /\ check_job_is_done 2 s1 = None
    /\ wait_job_done 2 s1 = None
    /\ run [ENewJob 1; EPushJob 1; EPushTask 0; EPopJob 1] (initial 1 0) = Some s2
    /\ m_jobs_map s2 !! 1%N = None
    /\ check_job_is_done 1 s2 = Some false.
Proof.
  do 2 eexists.
  split_conj; try (vm_compute; reflexivity).
  vm_compute. discriminate.
Qed.

(** C7, amended.  For the null handle the four operations are harmless in
    every reachable state: [restart_job] changes nothing, [check_job_is_done]
    and [wait_job_done] answer at once, [pop_job] returns the empty pointer.
    For any handle that is not registered [pop_job] returns the empty pointer
    and changes nothing. *)
Theorem null_handle_benign
    (n : nat) (cap : Z) (sched : list event) (s : World) :
  run sched (initial n cap) = Some s ->
  restart_job nullptr s = Some s
  /\ check_job_is_done nullptr s = Some true
  /\ wait_job_done nullptr s = Some true
  /\ pop_job nullptr s = (None, s)
  /\ forall j, m_jobs_map s !! j = None -> pop_job j s = (None, s).
Proof.
  intros Hrun.
  pose proof (run_accounting _ _ _ Hrun (initial_accounting n cap)) as Hacc.
  pose proof (run_registry _ _ _ Hrun (initial_registry n cap)) as Hri.
  assert (forall j, m_jobs_map s !! j = None -> pop_job j s = (None, s)) as Hpop.
  { intros j Hj. unfold pop_job. by rewrite Hj. }
  repeat split; try done.
  apply Hpop. destruct (m_jobs_map s !! nullptr) eqn:Hm; [|done].
  destruct (registered_job s nullptr Hacc Hri) as (Hne & _); [by eexists | done].
Qed.

Lemma null_handle_benign_witness :
  exists s,
    run [ENewJob 1; EPushJob 1; EPushTask 0] (initial 1 0) = Some s
    /\ restart_job nullptr s = Some s
    /\ check_job_is_done nullptr s = Some true
    /\ wait_job_done nullptr s = Some true
    /\ pop_job nullptr s = (None, s)
    /\ forall j, m_jobs_map s !! j = None -> pop_job j s = (None, s).
Proof.
  eexists. split; [vm_compute; reflexivity|].
  apply (null_handle_benign 1 0 [ENewJob 1; EPushJob 1; EPushTask 0]).
  vm_compute. reflexivity.
Defined.

(** ** Number of worker threads *)

(** C8, the failing input: with [task_threads = 0] and a hardware
    concurrency reported as [0], the unsigned subtraction wraps, the count is
    [-1], the test for zero does not fire, and [init] starts no worker: the
    [reserve] call throws. *)
Theorem init_hardware_concurrency_zero :
  task_threads_count 0 0 = (-1)%Z
  /\ forall max_tasks, MultiTask_new 0 max_tasks 0 = None.
Proof. split; [reflexivity | intros; reflexivity]. Qed.

(** For a hardware concurrency of at least one (and one that fits an [int])
    the automatic count is the concurrency minus one, but at least one, and
    that many workers are started. *)
Lemma init_automatic_count (hw max_tasks : Z) :
  (1 <= hw <= 2 ^ 31)%Z ->
  task_threads_count 0 hw = Z.max 1 (hw - 1)
  /\ MultiTask_new 0 max_tasks hw
     = Some (initial (Z.to_nat (Z.max 1 (hw - 1))) max_tasks).
Proof.
  intros Hhw.
  assert (task_threads_count 0 hw = Z.max 1 (hw - 1)) as Hc.
  { unfold task_threads_count, to_int. simpl (0 =? 0)%Z. cbv iota.
    rewrite Z.mod_small by lia.
    destruct (Z.ltb_spec (hw - 1) (2 ^ 31)); [|lia].
    destruct (Z.eqb_spec (hw - 1) 0); lia. }
  split; [done|].
  unfold MultiTask_new, init. rewrite Hc.
  assert ((vector_max_size <? Z.max 1 (hw - 1) `mod` 2 ^ 64)%Z = false) as ->.
  { apply Z.ltb_ge. rewrite Z.mod_small by lia.
    unfold vector_max_size. change ((2 ^ 63 - 1) `div` 8)%Z with 1152921504606846975%Z. lia. }
  reflexivity.
Qed.

(** ** [check_job_is_done] against the done flag *)

(** C9.  For a handle with a job object, [check_job_is_done] answers [true]
    exactly when the job's counter is zero.  That is not the done flag: in
    every reachable state (of a run that follows the lifecycle) a job whose
    driver has not pushed a task yet, and a job whose driver has read zero
    and is inside or just past [process_after_done], make
    [check_job_is_done] answer [true] while [wait_job_done] is blocked.
    Both situations occur. *)
Theorem check_job_is_done_is_not_done :
  (forall s j J, j <> nullptr -> heap s !! j = Some J ->
     (check_job_is_done j s = Some true <-> m_running_tasks J = 0%Z))
  /\ (forall n cap sched s j,
        run sched (initial n cap) = Some s ->
        lifecycle sched (initial n cap) = true ->
        j <> nullptr ->
        (Z.of_nat (g_pushed (job_at s j)) < ULONG_MODULUS)%Z ->
        (0 < producing j s /\ g_pushed (job_at s j) = 0)
        \/ 0 < in_hook j s + past_hook j s ->
        check_job_is_done j s = Some true /\ wait_job_done j s = Some false)
  /\ (exists s,
        run [ENewJob 1; EPushJob 1] (initial 2 0) = Some s
        /\ lifecycle [ENewJob 1; EPushJob 1] (initial 2 0) = true
        /\ m_jobs_map s !! 1%N = Some 1%N
        /\ drivers s = [(1%N, DProcess)]
        /\ g_pushed (job_at s 1) = 0
        /\ check_job_is_done 1 s = Some true
        /\ wait_job_done 1 s = Some false)
  /\ (exists s,
        run three_task_prefix (initial 2 0) = Some s
        /\ lifecycle three_task_prefix (initial 2 0) = true
        /\ drivers s = [(1%N, DAfterDone)]
        /\ g_pushed (job_at s 1) = 3
        /\ g_hooks (job_at s 1) = 0
        /\ check_job_is_done 1 s = Some true
        /\ wait_job_done 1 s = Some false).
Proof.
  split; [|split; [|split]].
  - intros s j J Hj HJ. unfold check_job_is_done, get_task_count.
    destruct (N.eqb_spec j nullptr); [done|]. rewrite HJ.
    destruct (Z.eqb_spec (m_running_tasks J) 0); split; congruence.
  - intros n cap sched s j Hrun Hlc Hj Hlt Hcase.
    destruct (reachable_inv n cap sched s Hrun Hlc) as [Hacc Hph].
    destruct (Hph j) as (Htok & Hact & Hfin & _). unfold tokens in Htok.
    destruct Hacc as [_ Hacc]. destruct (Hacc j) as (Hc & Hx & Hp & Hs).
    destruct (decide (g_activations (job_at s j) = 0)) as [H0|Hne];
      [exfalso; destruct Hcase as [[? ?]|?]; lia|].
    destruct (job_at_heap s j) as (J & HJ & HJ').
    { intros Heq. by rewrite Heq in Hne. }
    assert (m_is_done J = false) as Hnd.
    { rewrite <- HJ'. destruct (m_is_done (job_at s j)); [simpl in Htok; lia | done]. }
    assert (g_finished (job_at s j) = g_pushed (job_at s j)) as Heq.
    { destruct Hcase as [[_ H0]|Hhook]; [lia|]. apply Hfin; [lia | done]. }
    unfold check_job_is_done, wait_job_done, get_task_count, is_done.
    destruct (N.eqb_spec j nullptr); [done|]. rewrite HJ, Hnd.
    split; [|done]. f_equal. apply Z.eqb_eq.
    rewrite <- HJ', Hc, Heq, Z.sub_diag. reflexivity.
  - eexists. split_conj; vm_compute; reflexivity.
  - eexists. split_conj; vm_compute; reflexivity.
Qed.

Lemma check_job_is_done_is_not_done_witness :
  exists s,
    run three_task_prefix (initial 2 0) = Some s
    /\ (check_job_is_done 1 s = Some true <-> m_running_tasks (job_at s 1) = 0%Z)
    /\ check_job_is_done 1 s = Some true /\ wait_job_done 1 s = Some false.
Proof.
  eexists. split; [vm_compute; reflexivity|]. split.
  - apply (proj1 check_job_is_done_is_not_done); [discriminate|].
    vm_compute. reflexivity.
  - apply (proj1 (proj2 check_job_is_done_is_not_done) 2 0%Z three_task_prefix).
    + vm_compute. reflexivity.
    + vm_compute. reflexivity.
    + discriminate.
    + vm_compute. reflexivity.
    + right. vm_compute. lia.
Defined.

(** ** Capacity of the task queue *)

(** C4.  In every reachable state of an engine built with capacity [cap]:
    with [cap > 0] the queue never holds more than [cap] entries; a
    [push_task] that finds it full adds nothing and waits, the waiting call
    stays blocked while the queue is full and appends its task as soon as it
    is not; a [push_task] that finds it not full appends at once.  With
    [cap = 0] every [push_task] appends at once, and the queue reaches every
    length. *)
Theorem queue_capacity :
  (forall n cap sched s,
     run sched (initial n cap) = Some s ->
     ((0 < cap)%Z -> (Z.of_nat (length (m_tasks_queue s)) <= cap)%Z)
     /\ (forall d j, drivers s !! d = Some (j, DProcess) ->
           ((0 < cap)%Z -> Z.of_nat (length (m_tasks_queue s)) = cap ->
              exec (EPushTask d) s = Some (set_driver d j DPushWait s))
           /\ (cap = 0%Z \/ (Z.of_nat (length (m_tasks_queue s)) < cap)%Z ->
                 exists s', exec (EPushTask d) s = Some s'
                   /\ m_tasks_queue s' = m_tasks_queue s ++ [Some j]))
     /\ (forall d j, drivers s !! d = Some (j, DPushWait) ->
           ((cap <= Z.of_nat (length (m_tasks_queue s)))%Z ->
              exec (EPushWake d) s = None)
           /\ ((Z.of_nat (length (m_tasks_queue s)) < cap)%Z ->
                 exists s', exec (EPushWake d) s = Some s'
                   /\ m_tasks_queue s' = m_tasks_queue s ++ [Some j])))
  /\ (forall n k, exists sched s,
        run sched (initial n 0) = Some s /\ length (m_tasks_queue s) = k).
Proof.
  split.
  - intros n cap sched s Hrun.
    destruct (run_cap cap _ _ _ Hrun (initial_cap n cap)) as [Hcap Hlen].
    pose proof (run_accounting _ _ _ Hrun (initial_accounting n cap)) as Hacc.
    split; [done|]. split.
    + intros d j Hd.
      destruct (driver_job_in_heap s d j _ Hacc Hd) as [J HJ].
      simpl. rewrite Hd. simpl. unfold push_task_full. rewrite Hcap. split.
      * intros Hpos Heq. rewrite Heq, Z.eqb_refl.
        destruct (Z.eqb_spec cap 0); [lia | done].
      * intros Hroom.
        destruct (push_task_append_queue j s J HJ) as (s' & Hp & Hq & _).
        exists s'. split; [|done].
        destruct (Z.eqb_spec cap 0); simpl; [done|].
        destruct (Z.eqb_spec (Z.of_nat (length (m_tasks_queue s))) cap); [lia | done].
    + intros d j Hd.
      destruct (driver_job_in_heap s d j _ Hacc Hd) as [J HJ].
      simpl. rewrite Hd. simpl. unfold push_task_room. rewrite Hcap. split.
      * intros Hfull. by destruct (Z.ltb_spec (Z.of_nat (length (m_tasks_queue s))) cap); [lia|].
      * intros Hroom.
        destruct (Z.ltb_spec (Z.of_nat (length (m_tasks_queue s))) cap); [|lia].
        destruct (push_task_append_queue j (set_driver d j DProcess s) J HJ)
          as (s' & Hp & Hq & _).
        by exists s'.
  - intros n k.
    destruct (push_many k (with_heap (<[1%N := activated (set_conveyor Job_new)]>
                             (<[1%N := set_conveyor Job_new]> (<[1%N := Job_new]> ∅)))
                 (spawn_driver 1 (with_jobs_map (<[1%N := 1%N]> ∅)
                   (with_heap (<[1%N := set_conveyor Job_new]> (<[1%N := Job_new]> ∅))
                     (with_heap (<[1%N := Job_new]> ∅) (initial n 0)))))))
      as (s' & Hrun & Hlen); [done | done | |].
    { simpl. rewrite lookup_insert_eq. by eexists. }
    exists ([ENewJob 1; EPushJob 1] ++ replicate k (EPushTask 0)), s'.
    split; [|by rewrite Hlen].
    rewrite run_app. exact Hrun.
Qed.

Lemma queue_capacity_witness :
  exists s,
    run [ENewJob 1; EPushJob 1; EPushTask 0; EPushTask 0; EPushTask 0] (initial 1 2)
      = Some s
    /\ length (m_tasks_queue s) = 2
    /\ drivers s !! 0 = Some (1%N, DPushWait)
    /\ exec (EPushWake 0) s = None
    /\ (Z.of_nat (length (m_tasks_queue s)) <= 2)%Z.
Proof.
  eexists. split; [vm_compute; reflexivity|].
  split; [vm_compute; reflexivity|].
  split; [vm_compute; reflexivity|].
  pose proof (proj1 queue_capacity 1 2%Z
    [ENewJob 1; EPushJob 1; EPushTask 0; EPushTask 0; EPushTask 0]) as H.
  edestruct H as (Hbound & _ & Hwait); [vm_compute; reflexivity|].
  split.
  - apply (proj1 (Hwait 0 1%N ltac:(vm_compute; reflexivity))).
    vm_compute. discriminate.
  - apply Hbound. reflexivity.
Defined.

(** ** Restart of a completed job *)

(** C5.  In a run that follows the lifecycle, [restart_job] on a job whose
    done flag is set leaves the job with counter zero and both flags clear
    ([reset] clears the flags; the counter of a completed job is already
    zero), and starts a new driver at the beginning of [Job::process].
    [wait_job_done] is blocked right after the restart, and whenever it
    returns later, [process_after_done] has run again since the restart and
    every task pushed so far has been processed. *)
Theorem restart_job_of_completed_job
    (n : nat) (cap : Z) (sched : list event) (s : World) (j : JOBID) :
  run sched (initial n cap) = Some s ->
  lifecycle sched (initial n cap) = true ->
  j <> nullptr ->
  wait_job_done j s = Some true ->
  (Z.of_nat (g_pushed (job_at s j)) < ULONG_MODULUS)%Z ->
  exists s1,
    restart_job j s = Some s1
    /\ m_running_tasks (job_at s1 j) = 0%Z
    /\ m_is_all_task_pushed (job_at s1 j) = false
    /\ m_is_done (job_at s1 j) = false
    /\ drivers s1 = drivers s ++ [(j, DProcess)]
    /\ wait_job_done j s1 = Some false
    /\ forall sched' s2,
         run sched' s1 = Some s2 -> lifecycle sched' s1 = true ->
         wait_job_done j s2 = Some true ->
         (Z.of_nat (g_pushed (job_at s2 j)) < ULONG_MODULUS)%Z ->
         g_hooks (job_at s j) < g_hooks (job_at s2 j)
         /\ g_executed (job_at s2 j) = g_pushed (job_at s2 j).
Proof.
  intros Hrun Hlc Hj Hwait Hlt.
  destruct (reachable_inv n cap sched s Hrun Hlc) as [Hacc Hph].
  pose proof (wait_job_done_true j s Hj Hwait) as Hdone.
  destruct (done_job_complete s j Hacc (Hph j) Hdone Hlt) as (Hfin & _).
  destruct (done_job_hooks s j (Hph j) Hdone) as (Hhk & Hpos & _).
  destruct (job_at_heap s j) as (J & HJ & HJ').
  { intros Heq. rewrite Heq in Hpos. simpl in Hpos. lia. }
  destruct Hacc as [Hnull Hacc]. destruct (Hacc j) as (Hc & _).
  rewrite HJ' in *.
  assert (restart_job j s
          = Some (with_heap (<[j := activated (reset J)]> (<[j := reset J]> (heap s)))
                    (spawn_driver j (with_heap (<[j := reset J]> (heap s)) s)))) as Hre.
  { unfold restart_job, on_job. destruct (N.eqb_spec j nullptr); [done|].
    rewrite HJ. simpl. by rewrite lookup_insert_eq. }
  eexists. split; [exact Hre|].
  match goal with |- context [job_at ?s1 j] =>
    assert (job_at s1 j = activated (reset J)) as HJ1
      by (unfold job_at; simpl; by rewrite lookup_insert_eq)
  end.
  rewrite HJ1. split_conj; try done.
  - simpl. rewrite Hc, Hfin, Z.sub_diag. reflexivity.
  - unfold wait_job_done. destruct (N.eqb_spec j nullptr); [done|].
    simpl. by rewrite lookup_insert_eq.
  - intros sched' s2 Hrun' Hlc' Hwait' Hlt'.
    assert (run (sched ++ ERestartJob j :: sched') (initial n cap) = Some s2) as Hrun2.
    { rewrite run_app, Hrun. simpl. fold (restart_job j s). by rewrite Hre. }
    assert (lifecycle (sched ++ ERestartJob j :: sched') (initial n cap) = true) as Hlc2.
    { rewrite (lifecycle_app _ _ _ _ Hrun), Hlc. simpl.
      fold (restart_job j s). rewrite Hre, Hlc'.
      unfold job_at, is_done. rewrite HJ, Hdone. by destruct (j =? nullptr)%N. }
    destruct (reachable_inv n cap _ s2 Hrun2 Hlc2) as [Hacc2 Hph2].
    pose proof (wait_job_done_true j s2 Hj Hwait') as Hdone2.
    destruct (done_job_complete s2 j Hacc2 (Hph2 j) Hdone2 Hlt') as (_ & Hex2 & _).
    destruct (done_job_hooks s2 j (Hph2 j) Hdone2) as (Hhk2 & _).
    split; [|done].
    pose proof (run_history_le j sched' _ s2 Hrun') as (Ha & _).
    rewrite HJ1 in Ha. simpl in Ha. lia.
Qed.

Lemma restart_job_of_completed_job_witness :
  exists s,
    run one_task_done (initial 1 0) = Some s
    /\ exists s1,
         restart_job 1 s = Some s1
         /\ m_running_tasks (job_at s1 1) = 0%Z
         /\ m_is_all_task_pushed (job_at s1 1) = false
         /\ m_is_done (job_at s1 1) = false
         /\ drivers s1 = drivers s ++ [(1%N, DProcess)]
         /\ wait_job_done 1 s1 = Some false
         /\ forall sched' s2,
              run sched' s1 = Some s2 -> lifecycle sched' s1 = true ->
              wait_job_done 1 s2 = Some true ->
              (Z.of_nat (g_pushed (job_at s2 1)) < ULONG_MODULUS)%Z ->
              g_hooks (job_at s 1) < g_hooks (job_at s2 1)
              /\ g_executed (job_at s2 1) = g_pushed (job_at s2 1).
Proof.
  eexists. split; [vm_compute; reflexivity|].
  apply (restart_job_of_completed_job 1 0 one_task_done).
  - vm_compute. reflexivity.
  - vm_compute. reflexivity.
  - discriminate.
  - vm_compute. reflexivity.
  - vm_compute. reflexivity.
Defined.

(** ** Tasks destroyed by [terminate] *)

(** C10.  No step of [terminate] touches a job object, so no counter is
    counted down for the tasks its clear destroys.  If a job has [k > 0]
    tasks in the queue when [terminate] starts, then in every later state
    (of a run that follows the lifecycle, absent wrap-around) at least [k]
    destroyed tasks are still counted: the counter is the number of the
    job's tasks queued, in a worker or destroyed, it is never zero again,
    [process_after_done] does not run again, the done flag stays clear,
    [wait_job_done] stays blocked, and a driver in the loop of
    [wait_until_all_tasks_done] stays there. *)
Theorem terminate_leaves_counters
    (n : nat) (cap : Z) (sched sched' : list event) (s s1 s2 : World)
    (j : JOBID) (k : nat) :
  run sched (initial n cap) = Some s ->
  lifecycle sched (initial n cap) = true ->
  queued j s = k -> 0 < k ->
  exec ETerminateBegin s = Some s1 ->
  run sched' s1 = Some s2 -> lifecycle sched' s1 = true ->
  (Z.of_nat (g_pushed (job_at s2 j)) < ULONG_MODULUS)%Z ->
  heap s1 = heap s
  /\ m_tasks_queue s1 = [None]
  /\ (forall t t', exec ETerminateJoin t = Some t' \/ exec ETerminateEnd t = Some t' ->
        heap t' = heap t)
  /\ k <= discarded j s2
  /\ m_running_tasks (job_at s2 j)
     = Z.of_nat (queued j s2 + processing j s2 + uncounted j s2 + discarded j s2)
  /\ m_running_tasks (job_at s2 j) <> 0%Z
  /\ g_hooks (job_at s2 j) = g_hooks (job_at s j)
  /\ m_is_done (job_at s2 j) = false
  /\ wait_job_done j s2 <> Some true
  /\ in_hook j s2 + past_hook j s2 = 0
  /\ forall d, drivers s2 !! d = Some (j, DWaitTasks) ->
       exec (EWaitTasks d) s2 = Some s2.
Proof.
  intros Hrun Hlc Hk Hpos Hbegin Hrun' Hlc' Hlt.
  destruct (reachable_inv n cap sched s Hrun Hlc) as [Hacc Hph].
  pose proof (exec_accounting _ _ _ Hbegin Hacc) as Hacc1.
  pose proof (exec_phase _ _ _ Hbegin eq_refl Hacc Hph) as Hph1.
  pose proof (run_accounting _ _ _ Hrun' Hacc1) as Hacc2.
  pose proof (run_phase _ _ _ Hrun' Hlc' Hacc1 Hph1) as Hph2.
  assert (s1 = terminate_begin s) as Hs1.
  { simpl in Hbegin. destruct (term s); congruence. }
  assert (discarded j s1 = discarded j s + k) as Hd1.
  { rewrite Hs1. unfold discarded, terminate_begin. simpl.
    by rewrite countb_app, countb_tasks_of, <- Hk. }
  pose proof (run_history_le j sched' s1 s2 Hrun') as (_ & _ & _ & Hd2).
  destruct (discarded_blocks s2 j Hacc2 (Hph2 j)) as (Hin2 & Hdone2 & Hcnt2);
    [lia | done |].
  assert (g_hooks (job_at s1 j) = g_hooks (job_at s j)) as Hh1.
  { rewrite Hs1. reflexivity. }
  split_conj.
  - by rewrite Hs1.
  - by rewrite Hs1.
  - intros t t' [Ht|Ht]; simpl in Ht; destruct (term t); try done.
    + unfold exec_terminate_join in Ht. repeat case_match; simplify_eq. done.
    + case_decide; simplify_eq. done.
  - lia.
  - done.
  - rewrite Hcnt2. lia.
  - rewrite <- Hh1. apply (run_hooks_frozen j sched' s1 s2); try done. lia.
  - done.
  - unfold wait_job_done, job_at, is_done in *.
    destruct (j =? nullptr)%N eqn:Hj.
    + apply N.eqb_eq in Hj. subst j. destruct Hacc2 as [Hnull _].
      rewrite Hnull in Hcnt2. simpl in Hcnt2. lia.
    + destruct (heap s2 !! j); congruence.
  - done.
  - intros d Hd. simpl. rewrite Hd. simpl.
    destruct (driver_job_in_heap s2 d j _ Hacc2 Hd) as [J HJ]. rewrite HJ.
    unfold job_at in Hcnt2. rewrite HJ in Hcnt2.
    destruct (Z.eqb_spec (m_running_tasks J) 0); [lia | done].
Qed.

Lemma terminate_leaves_counters_witness :
  exists s s1 s2,
    run two_queued (initial 1 0) = Some s
    /\ exec ETerminateBegin s = Some s1
    /\ run terminate_rest s1 = Some s2
    /\ m_running_tasks (job_at s2 1) = 2%Z
    /\ 2 <= discarded 1 s2
    /\ m_running_tasks (job_at s2 1) <> 0%Z
    /\ g_hooks (job_at s2 1) = g_hooks (job_at s 1)
    /\ m_is_done (job_at s2 1) = false.
Proof.
  do 3 eexists.
  split; [vm_compute; reflexivity|].
  split; [vm_compute; reflexivity|].
  split; [vm_compute; reflexivity|].
  split; [vm_compute; reflexivity|].
  pose proof (fun s s1 s2 =>
    terminate_leaves_counters 1 0 two_queued terminate_rest s s1 s2 1%N 2) as H.
  edestruct H as (_ & _ & _ & Hk & _ & Hne & Hh & Hd & _).
  - vm_compute. reflexivity.
  - vm_compute. reflexivity.
  - vm_compute. reflexivity.
  - lia.
  - vm_compute. reflexivity.
  - vm_compute. reflexivity.
  - vm_compute. reflexivity.
  - vm_compute. reflexivity.
  - split; [exact Hk|]. split; [exact Hne|]. split; [exact Hh | exact Hd].
Defined.

(** ** Shutdown *)

(** C6.  In every reachable state of an engine with [n] workers: no worker
    has been joined twice; a [terminate] that starts replaces the queue by
    the null task alone, so every pending task is destroyed; a [terminate]
    that is joining can always run to its end (the workers can leave their
    loops and be joined, so it is not stuck), and then the queue and
    [m_tasks] are empty and every worker has been joined exactly once; a
    [terminate] called after one has completed finds no thread to join,
    joins nothing, ends with the same joins, and leaves the state as it was
    when the queue was empty. *)
Theorem terminate_joins_once_and_is_idempotent
    (n : nat) (cap : Z) (sched : list event) (s : World) :
  run sched (initial n cap) = Some s ->
  NoDup (g_joins s)
  /\ (forall t, In t (g_joins s) -> t < n)
  /\ (term s = TIdle ->
        exists s1, exec ETerminateBegin s = Some s1
          /\ m_tasks_queue s1 = [None]
          /\ g_discarded s1 = g_discarded s ++ tasks_of (m_tasks_queue s))
  /\ (forall k, term s = TJoin k ->
        exists sched' s',
          run sched' s = Some s' /\ term s' = TIdle /\ m_tasks s' = []
          /\ m_tasks_queue s' = [] /\ g_joins s' = seq 0 n)
  /\ (term s = TIdle -> m_tasks s = [] ->
        g_joins s = seq 0 n
        /\ exec ETerminateJoin (terminate_begin s) = None
        /\ exists s',
             run [ETerminateBegin; ETerminateEnd] s = Some s'
             /\ g_joins s' = g_joins s /\ term s' = TIdle
             /\ m_tasks s' = [] /\ m_tasks_queue s' = []
             /\ (m_tasks_queue s = [] -> s' = s)).
Proof.
  intros Hrun.
  destruct (run_term n _ _ _ Hrun (initial_term n cap)) as (Hlen & Hhd & Hj).
  assert (exists k, g_joins s = seq 0 k /\ k <= n) as (k0 & Hk0 & Hle0).
  { destruct Hj as [(_ & Hj)|(_ & Hj & _)]; [|by exists n].
    destruct (term s); [exists 0 | exists k];
      [rewrite Hj; split; [done | lia] | by destruct Hj]. }
  split_conj.
  - rewrite Hk0. apply NoDup_seq.
  - intros t Ht. rewrite Hk0 in Ht. apply in_seq in Ht. lia.
  - intros Hterm. exists (terminate_begin s). simpl. by rewrite Hterm.
  - intros k Hterm. rewrite Hterm in Hj. destruct Hj as [(Hm & Hk & Hjs)|(Hm & Hjs & ->)].
    + apply (terminate_can_finish n cap (n - k) k sched s); try done. lia.
    + exists [ETerminateEnd], (terminate_end s). split_conj; try done.
      simpl. by rewrite Hterm, Hm.
  - intros Hterm Hm.
    assert (g_joins s = seq 0 n) as Hjs.
    { rewrite Hterm in Hj. destruct Hj as [(Hm' & Hjs)|(_ & Hjs & _)]; [|done].
      rewrite Hm in Hm'. destruct n; simpl in *; [done | discriminate Hm']. }
    split_conj; [done | |].
    + simpl. unfold exec_terminate_join. simpl. by rewrite Hm.
    + exists (terminate_end (terminate_begin s)). split_conj; try done.
      * simpl. rewrite Hterm. simpl. by rewrite Hm.
      * by apply terminate_twice_same.
Qed.

Lemma terminate_joins_once_and_is_idempotent_witness :
  exists s,
    run shutdown_schedule (initial 2 0) = Some s
    /\ term s = TJoin 0
    /\ NoDup (g_joins s)
    /\ exists sched' s',
         run sched' s = Some s' /\ term s' = TIdle /\ m_tasks s' = []
         /\ m_tasks_queue s' = [] /\ g_joins s' = seq 0 2.
Proof.
  eexists. split; [vm_compute; reflexivity|].
  split; [vm_compute; reflexivity|].
  edestruct (terminate_joins_once_and_is_idempotent 2 0 shutdown_schedule)
    as (Hnd & _ & _ & Hfin & _); [vm_compute; reflexivity|].
  split; [exact Hnd|].
  apply (Hfin 0). vm_compute. reflexivity.
Defined.

(** ** The two completion checks *)

(** C2.  The same schedule (a job is submitted, pushes one task, a worker
    takes it) is run on both revisions.  In the state reached the task is in
    the worker and not finished and the queue is empty: the scan of the old
    revision answers that the job is done, the counter of the current one
    answers that it is not.  The old driver goes on and raises the done flag
    while the task is still running; the current driver stays in its loop.
    In general the old check looks at the queue alone, the current check
    answers [false] in every reachable state where a task of the job is
    queued or in a worker, and only the current revision has the completion
    property: its done flag implies that every pushed task was processed. *)
Theorem scan_check_blind_to_running_task :
  (exists sL s sL' s',
     Legacy.run [Legacy.ENewJob 1; Legacy.EPushJob 1; Legacy.EPushTask 0;
                 Legacy.EWorkerPop 0] (Legacy.initial 1 0) = Some sL
     /\ run [ENewJob 1; EPushJob 1; EPushTask 0; EWorkerPop 0] (initial 1 0) = Some s
     /\ Legacy.workers sL = [Legacy.WProcess 1] /\ workers s = [WProcess 1]
     /\ Legacy.m_tasks_queue sL = [] /\ m_tasks_queue s = []
     /\ Legacy.check_job_is_done 1 sL = Some true
     /\ check_job_is_done 1 s = Some false
     /\ Legacy.run [Legacy.EAllPushed 0; Legacy.EWaitTasks 0; Legacy.ESetDone 0] sL
        = Some sL'
     /\ Legacy.is_done (Legacy.job_at sL' 1) = true
     /\ Legacy.workers sL' = [Legacy.WProcess 1]
     /\ Legacy.g_pushed (Legacy.job_at sL' 1) = 1
     /\ Legacy.g_executed (Legacy.job_at sL' 1) = 0
     /\ Legacy.g_hooks (Legacy.job_at sL' 1) = 0
     /\ run [EAllPushed 0; EWaitTasks 0] s = Some s'
     /\ drivers s' = [(1%N, DWaitTasks)]
     /\ is_done (job_at s' 1) = false)
  /\ (forall sL j, j <> nullptr ->
        Legacy.check_job_is_done j sL
        = Some (forallb (fun t => negb (Legacy.get_id t =? j)%N)
                        (Legacy.m_tasks_queue sL)))
  /\ (forall n cap sched s j,
        run sched (initial n cap) = Some s ->
        0 < queued j s + processing j s + uncounted j s ->
        (Z.of_nat (g_pushed (job_at s j)) < ULONG_MODULUS)%Z ->
        check_job_is_done j s = Some false)
  /\ (forall n cap sched s j,
        run sched (initial n cap) = Some s ->
        lifecycle sched (initial n cap) = true ->
        is_done (job_at s j) = true ->
        (Z.of_nat (g_pushed (job_at s j)) < ULONG_MODULUS)%Z ->
        g_executed (job_at s j) = g_pushed (job_at s j)
        /\ processing j s = 0).
Proof.
  split_conj.
  - do 4 eexists. split_conj; vm_compute; reflexivity.
  - intros sL j Hj. unfold Legacy.check_job_is_done.
    by destruct (N.eqb_spec j nullptr).
  - intros n cap sched s j Hrun Hpos Hlt.
    apply running_task_counted; try done.
    apply (run_accounting _ _ _ Hrun), initial_accounting.
  - intros n cap sched s j Hrun Hlc Hdone Hlt.
    destruct (reachable_inv n cap sched s Hrun Hlc) as [Hacc Hph].
    destruct (done_job_complete s j Hacc (Hph j) Hdone Hlt) as (_ & ? & _ & ? & _).
    done.
Qed.

Lemma scan_check_blind_to_running_task_witness :
  exists s,
    run [ENewJob 1; EPushJob 1; EPushTask 0; EWorkerPop 0] (initial 1 0) = Some s
    /\ check_job_is_done 1 s = Some false.
Proof.
  eexists. split; [vm_compute; reflexivity|].
  apply (proj1 (proj2 (proj2 scan_check_blind_to_running_task)) 1 0%Z
           [ENewJob 1; EPushJob 1; EPushTask 0; EWorkerPop 0]).
  - vm_compute. reflexivity.
  - vm_compute. lia.
  - vm_compute. reflexivity.
Defined.

(** ** The older revision on a registered handle *)

(** The older [push_job] does tell the rejection apart, by returning the
    null pointer, but the job object does not survive the call: it was moved
    into the temporary pair and is destroyed with it. *)
Lemma legacy_push_job_registered_handle :
  exists s r c s',
    Legacy.run [Legacy.ENewJob 1; Legacy.EPushJob 1] (Legacy.initial 1 0) = Some s
    /\ Legacy.m_jobs_map s !! 1%N = Some 1%N
    /\ Legacy.push_job 1 s = Some (r, c, s')
    /\ r = nullptr /\ c = None
    /\ Legacy.heap s' !! 1%N = None
    /\ Legacy.m_jobs_map s' = Legacy.m_jobs_map s
    /\ Legacy.drivers s' = Legacy.drivers s.
Proof.
  do 4 eexists. split_conj; vm_compute; reflexivity.
Qed.

(** ** Further properties of the engine *)

(** ** Extraction from the registry *)

(** X1.  In every reachable state [pop_job] on a registered handle returns
    that handle and removes exactly its entry; the job object stays alive and
    its threads, the queue and every other job are untouched; a second
    [pop_job] returns the empty pointer; and handing the job to [push_job]
    again puts the registry back as it was. *)
Theorem pop_job_registered
    (n : nat) (cap : Z) (sched : list event) (s : World) (j : JOBID) :
  run sched (initial n cap) = Some s ->
  is_Some (m_jobs_map s !! j) ->
  exists s',
    pop_job j s = (Some j, s')
    /\ m_jobs_map s' = delete j (m_jobs_map s)
    /\ heap s' = heap s /\ is_Some (heap s' !! j)
    /\ drivers s' = drivers s /\ workers s' = workers s
    /\ m_tasks_queue s' = m_tasks_queue s
    /\ pop_job j s' = (None, s')
    /\ exists s'', push_job j s' = Some (j, None, s'')
         /\ m_jobs_map s'' = m_jobs_map s.
Proof.
  intros Hrun Hreg.
  pose proof (run_accounting _ _ _ Hrun (initial_accounting n cap)) as Hacc.
  pose proof (run_registry _ _ _ Hrun (initial_registry n cap)) as Hri.
  destruct (registered_job s j Hacc Hri Hreg) as (_ & Hm & J & HJ & Hcv).
  exists (with_jobs_map (delete j (m_jobs_map s)) s).
  unfold pop_job. rewrite Hm. simpl. rewrite lookup_delete_eq.
  split_conj; try done.
  unfold push_job, on_job. simpl. rewrite HJ. simpl.
  rewrite lookup_delete_eq, lookup_insert_eq.
  eexists. split; [done|]. simpl.
  rewrite insert_delete_eq. by apply insert_id.
Qed.

Lemma pop_job_registered_witness :
  exists s s',
    run [ENewJob 1; EPushJob 1; EPushTask 0] (initial 1 0) = Some s
    /\ pop_job 1 s = (Some 1%N, s')
    /\ pop_job 1 s' = (None, s')
    /\ drivers s' = drivers s.
Proof.
  eexists. 
  pose proof (fun s =>
    pop_job_registered 1 0 [ENewJob 1; EPushJob 1; EPushTask 0] s 1%N) as H.
  edestruct H as (s' & Hp & _ & _ & _ & Hd & _ & _ & Hp2 & _).
  - vm_compute. reflexivity.
  - vm_compute. eexists. reflexivity.
  - exists s'. split; [vm_compute; reflexivity|]. split; [exact Hp|].
    split; [exact Hp2 | exact Hd].
Defined.

(** ** [emplace_job] *)

(** X2.  [emplace_job] constructs the job at an address where no job object
    is, and in a reachable state such an address is not registered: the
    rejection branch of [push_job] is never taken.  The job is registered
    under its address with the back pointer set, both flags clear and
    counter zero, one driver is started at the beginning of [Job::process],
    and nothing else changes. *)
Theorem emplace_job_registers
    (n : nat) (cap : Z) (sched : list event) (s : World) (j : JOBID) :
  run sched (initial n cap) = Some s ->
  j <> nullptr -> heap s !! j = None ->
  exists s',
    emplace_job j s = Some (j, s')
    /\ m_jobs_map s' = <[j := j]> (m_jobs_map s)
    /\ m_jobs_map s !! j = None
    /\ heap s' = <[j := activated (set_conveyor Job_new)]> (heap s)
    /\ drivers s' = drivers s ++ [(j, DProcess)]
    /\ workers s' = workers s /\ m_tasks_queue s' = m_tasks_queue s
    /\ check_job_is_done j s' = Some true
    /\ wait_job_done j s' = Some false.
Proof.
  intros Hrun Hj Hh.
  pose proof (run_accounting _ _ _ Hrun (initial_accounting n cap)) as Hacc.
  pose proof (run_registry _ _ _ Hrun (initial_registry n cap)) as Hri.
  assert (m_jobs_map s !! j = None) as Hm.
  { destruct (m_jobs_map s !! j) eqn:Hm; [|done].
    destruct (registered_job s j Hacc Hri) as (_ & _ & J & HJ & _); [by eexists|].
    congruence. }
  unfold emplace_job. simpl.
  destruct (N.eqb_spec j nullptr); [done|]. rewrite Hh.
  unfold push_job, on_job. simpl. rewrite !lookup_insert_eq. simpl.
  rewrite Hm, lookup_insert_eq.
  eexists. split; [done|]. simpl.
  unfold check_job_is_done, wait_job_done. simpl.
  destruct (N.eqb_spec j nullptr); [done|]. rewrite lookup_insert_eq.
  split_conj; try done.
  by rewrite !insert_insert_eq.
Qed.

Lemma emplace_job_registers_witness :
  exists s s',
    run [ENewJob 1; EPushJob 1; EPushTask 0] (initial 1 0) = Some s
    /\ emplace_job 2 s = Some (2%N, s')
    /\ drivers s' = drivers s ++ [(2%N, DProcess)].
Proof.
  eexists.
  pose proof (fun s =>
    emplace_job_registers 1 0 [ENewJob 1; EPushJob 1; EPushTask 0] s 2%N) as H.
  edestruct H as (s' & He & _ & _ & _ & Hd & _).
  - vm_compute. reflexivity.
  - discriminate.
  - vm_compute. reflexivity.
  - exists s'. split; [vm_compute; reflexivity|]. split; [exact He | exact Hd].
Defined.

(** ** Worker count chosen by [init] *)

(** X3.  With [task_threads = 0] on a machine that reports at least one
    hardware thread, the construction succeeds and starts one worker less
    than the hardware concurrency, but at least one.  Every worker waits at
    the top of its loop, there is one thread handle per worker, the queue and
    the registry are empty, no driver runs, and the queue bound is the one
    given. *)
Theorem init_automatic_workers (hw max_tasks : Z) :
  (1 <= hw <= 2 ^ 31)%Z ->
  exists s,
    MultiTask_new 0 max_tasks hw = Some s
    /\ Z.of_nat (length (workers s)) = Z.max 1 (hw - 1)
    /\ (forall w pc, workers s !! w = Some pc -> pc = WWait)
    /\ length (m_tasks s) = length (workers s)
    /\ m_tasks_queue s = []
    /\ m_jobs_map s = ∅
    /\ drivers s = []
    /\ m_max_tasks s = max_tasks.
Proof.
  intros Hhw. destruct (init_automatic_count hw max_tasks Hhw) as [_ Hnew].
  eexists. split; [exact Hnew|]. simpl. split_conj; try done.
  - rewrite length_replicate. lia.
  - by intros w pc [-> _]%lookup_replicate.
  - by rewrite length_seq, length_replicate.
Qed.

Lemma init_automatic_workers_witness :
  exists s,
    MultiTask_new 0 7 1 = Some s
    /\ Z.of_nat (length (workers s)) = Z.max 1 (1 - 1)
    /\ (forall w pc, workers s !! w = Some pc -> pc = WWait)
    /\ length (m_tasks s) = length (workers s)
    /\ m_tasks_queue s = []
    /\ m_jobs_map s = ∅
    /\ drivers s = []
    /\ m_max_tasks s = 7%Z.
Proof. apply (init_automatic_workers 1 7). lia. Defined.

(** X4.  An explicit thread count that fits an [int] is taken as it is,
    whatever the hardware reports: that many workers are started, all
    waiting.  A count of [2^31] or more turns negative in the [int], and the
    construction fails in [reserve]. *)
Theorem init_explicit_count (task_threads max_tasks hw : Z) :
  (1 <= task_threads < 2 ^ 32)%Z ->
  ((task_threads < 2 ^ 31)%Z ->
     task_threads_count task_threads hw = task_threads
     /\ MultiTask_new task_threads max_tasks hw
        = Some (initial (Z.to_nat task_threads) max_tasks))
  /\ ((2 ^ 31 <= task_threads)%Z ->
        (task_threads_count task_threads hw < 0)%Z
        /\ MultiTask_new task_threads max_tasks hw = None).
Proof.
  intros Hr.
  assert (task_threads_count task_threads hw = to_int task_threads) as Hc.
  { unfold task_threads_count. destruct (Z.eqb_spec task_threads 0); [lia|].
    unfold to_int. destruct (Z.ltb_spec task_threads (2 ^ 31)).
    - destruct (Z.eqb_spec task_threads 0); [lia | done].
    - destruct (Z.eqb_spec (task_threads - 2 ^ 32) 0); [lia | done]. }
  unfold MultiTask_new, init. rewrite Hc. unfold to_int, vector_max_size.
  change ((2 ^ 63 - 1) `div` 8)%Z with 1152921504606846975%Z.
  split; intros Hb.
  - destruct (Z.ltb_spec task_threads (2 ^ 31)); [|lia]. split; [done|].
    rewrite Z.mod_small by lia.
    destruct (Z.ltb_spec 1152921504606846975 task_threads); [lia | done].
  - destruct (Z.ltb_spec task_threads (2 ^ 31)); [lia|]. split; [lia|].
    replace ((task_threads - 2 ^ 32) `mod` 2 ^ 64)%Z
      with (task_threads - 2 ^ 32 + 2 ^ 64)%Z.
    + destruct (Z.ltb_spec 1152921504606846975 (task_threads - 2 ^ 32 + 2 ^ 64));
        [done | lia].
    + apply (Z.mod_unique_pos _ _ (-1)); lia.
Qed.

Lemma init_explicit_count_witness :
  (task_threads_count 4 16 = 4%Z
   /\ MultiTask_new 4 0 16 = Some (initial 4 0))
  /\ MultiTask_new 4294967295 0 16 = None.
Proof.
  split.
  - apply (proj1 (init_explicit_count 4 0 16 ltac:(lia))). lia.
  - apply (proj2 (init_explicit_count 4294967295 0 16 ltac:(lia))). lia.
Defined.

(** ** The counter of running tasks *)

(** X5.  In every reachable state the counter of a job is a value of the
    [unsigned long]; absent wrap-around it is the number of the job's tasks
    that are queued, held by a worker or destroyed by a clear, and a worker
    about to call [dec_task_count] finds it at least one: the counter is
    never counted down below zero. *)
Theorem counter_never_underflows
    (n : nat) (cap : Z) (sched : list event) (s : World) (j : JOBID) :
  run sched (initial n cap) = Some s ->
  (0 <= m_running_tasks (job_at s j) < ULONG_MODULUS)%Z
  /\ ((Z.of_nat (g_pushed (job_at s j)) < ULONG_MODULUS)%Z ->
        m_running_tasks (job_at s j)
        = Z.of_nat (queued j s + processing j s + uncounted j s + discarded j s)
        /\ forall w, workers s !! w = Some (WDec j) ->
             (1 <= m_running_tasks (job_at s j))%Z
             /\ m_running_tasks (dec_task_count (job_at s j))
                = (m_running_tasks (job_at s j) - 1)%Z).
Proof.
  intros Hrun.
  destruct (run_accounting _ _ _ Hrun (initial_accounting n cap)) as [_ Hacc].
  destruct (Hacc j) as (Hc & Hx & Hp & _).
  split.
  - rewrite Hc. apply Z.mod_pos_bound, ULONG_MODULUS_pos.
  - intros Hlt.
    assert (m_running_tasks (job_at s j)
            = Z.of_nat (queued j s + processing j s + uncounted j s + discarded j s))
      as Heq by (rewrite (counter_exact _ _ _ Hc); [f_equal | |]; lia).
    split; [done|]. intros w Hw.
    pose proof (countb_lookup_le (is_WDec j) _ _ _ Hw) as Hle.
    simpl in Hle. rewrite N.eqb_refl in Hle. simpl in Hle.
    fold (uncounted j s) in Hle.
    split; [lia|]. simpl. rewrite Z.mod_small; [done|].
    unfold ULONG_MODULUS in *. lia.
Qed.

Lemma counter_never_underflows_witness :
  exists s,
    run [ENewJob 1; EPushJob 1; EPushTask 0; EPushTask 0; EWorkerPop 0;
         EWorkerProcess 0] (initial 1 0) = Some s
    /\ m_running_tasks (job_at s 1) = 2%Z
    /\ m_running_tasks (dec_task_count (job_at s 1)) = (2 - 1)%Z.
Proof.
  eexists. split; [vm_compute; reflexivity|].
  split; [vm_compute; reflexivity|].
  pose proof (fun s => counter_never_underflows 1 0
    [ENewJob 1; EPushJob 1; EPushTask 0; EPushTask 0; EWorkerPop 0;
     EWorkerProcess 0] s 1%N) as H.
  edestruct H as (_ & Hw); [vm_compute; reflexivity|].
  destruct Hw as (_ & Hw); [vm_compute; reflexivity|].
  destruct (Hw 0) as (_ & Hd); [vm_compute; reflexivity|].
  exact Hd.
Defined.

(** ** Jobs do not interfere *)

(** X6.  A step changes at most one job object, the one it works for: a
    worker that finishes or counts down a task of one job, a driver, a
    [push_job] or [restart_job] never writes the counter or the flags of
    another job, and [pop_job], the worker's take from the queue and
    [terminate] write no job at all. *)
Theorem step_touches_one_job (e : event) (s s' : World) (j : JOBID) :
  exec e s = Some s' ->
  event_subject e s <> Some j ->
  heap s' !! j = heap s !! j.
Proof.
  intros He Hsub. destruct e; simpl in Hsub.
  all: try (destruct (drivers s !! d) as [[j0 pc]|] eqn:Hd; simpl in Hsub).
  all: try (destruct (workers s !! w) as [pc|] eqn:Hw; simpl in Hsub).
  all: step_cases He; simpl.
  all: rewrite ?lookup_insert_ne by congruence; try done.
Qed.

Lemma step_touches_one_job_witness :
  exists s s',
    run [ENewJob 1; EPushJob 1; ENewJob 2; EPushJob 2; EPushTask 0;
         EPushTask 1; EWorkerPop 0; EWorkerProcess 0] (initial 1 0) = Some s
    /\ exec (EWorkerDec 0) s = Some s'
    /\ m_running_tasks (job_at s' 1) = 0%Z
    /\ heap s' !! 2%N = heap s !! 2%N.
Proof.
  do 2 eexists. split; [vm_compute; reflexivity|].
  split; [vm_compute; reflexivity|].
  split; [vm_compute; reflexivity|].
  apply (step_touches_one_job (EWorkerDec 0)).
  - vm_compute. reflexivity.
  - vm_compute. discriminate.
Defined.

(** ** Order of the queue *)

Lemma step_fifo (e : event) (s s' : World) :
  exec e s = Some s' -> is_clear e = false ->
  m_tasks_queue s ++ (Some <$> step_pushes e s)
  = (Some <$> step_pops e s) ++ m_tasks_queue s'.
Proof.
  intros He Hc. destruct e; simpl in Hc; try done.
  all: unfold step_pushes, step_pops; step_cases He; simpl.
  all: rewrite ?app_nil_r; try done.
Qed.

(** X7.  As long as no [terminate] clears the queue, the queue is first in,
    first out over all producers: the tasks the workers have taken, in the
    order they took them, followed by the tasks still queued, are the tasks
    pushed, in the order they were pushed. *)
Theorem queue_is_fifo
    (n : nat) (cap : Z) (sched : list event) (s : World) :
  run sched (initial n cap) = Some s ->
  forallb (fun e => negb (is_clear e)) sched = true ->
  Some <$> pushes sched (initial n cap)
  = (Some <$> pops sched (initial n cap)) ++ m_tasks_queue s.
Proof.
  intros Hrun Hnc.
  change (Some <$> pushes sched (initial n cap))
    with (m_tasks_queue (initial n cap) ++ (Some <$> pushes sched (initial n cap))).
  revert Hrun Hnc. generalize (initial n cap).
  induction sched as [|e sched IH]; intros s0; simpl.
  - intros [= ->] _. by rewrite app_nil_r.
  - destruct (exec e s0) as [s1|] eqn:He; [|done].
    intros Hrun [Hc Hnc]%andb_true_iff. apply negb_true_iff in Hc.
    rewrite !fmap_app, app_assoc, (step_fifo e s0 s1 He Hc), <- !app_assoc.
    f_equal. by apply IH.
Qed.

Lemma queue_is_fifo_witness :
  exists s,
    run [ENewJob 1; EPushJob 1; ENewJob 2; EPushJob 2; EPushTask 0;
         EPushTask 1; EPushTask 0; EWorkerPop 0; EWorkerPop 1] (initial 2 0)
      = Some s
    /\ pushes [ENewJob 1; EPushJob 1; ENewJob 2; EPushJob 2; EPushTask 0;
               EPushTask 1; EPushTask 0; EWorkerPop 0; EWorkerPop 1] (initial 2 0)
       = [1%N; 2%N; 1%N]
    /\ Some <$> pushes [ENewJob 1; EPushJob 1; ENewJob 2; EPushJob 2; EPushTask 0;
               EPushTask 1; EPushTask 0; EWorkerPop 0; EWorkerPop 1] (initial 2 0)
       = (Some <$> pops [ENewJob 1; EPushJob 1; ENewJob 2; EPushJob 2; EPushTask 0;
               EPushTask 1; EPushTask 0; EWorkerPop 0; EWorkerPop 1] (initial 2 0))
         ++ m_tasks_queue s.
Proof.
  eexists. split; [vm_compute; reflexivity|].
  split; [vm_compute; reflexivity|].
  apply queue_is_fifo; vm_compute; reflexivity.
Defined.

(** ** Workers and [terminate] *)

Lemma exec_never_terminated (n : nat) (e : event) (s s' : World) :
  exec e s = Some s' -> e <> ETerminateBegin ->
  never_terminated n s -> never_terminated n s'.
Proof.
  intros He Hne (Ht & Hj & Hd & Hm & Hl & Hq & Hw).
  destruct e; try done; step_cases He.
  all: try congruence.
  all: unfold never_terminated;
       cbn [term m_tasks m_tasks_queue workers g_joins g_discarded
         with_term with_tasks with_queue with_workers with_joins with_heap
         with_drivers with_jobs_map with_discarded set_worker set_driver
         spawn_driver snd];
       rewrite ?length_insert.
  all: split_conj; try done.
  all: try (destruct (m_jobs_map s !! j); done).
  all: try (intros i Hi; apply lookup_app_Some in Hi as [Hi|[_ Hi]];
            [by apply (Hq i) | by destruct (i - length (m_tasks_queue s))]).
  all: try (intros w0 Hw0; destruct (decide (w = w0)) as [->|];
            [rewrite list_lookup_insert_eq in Hw0 by (by eapply lookup_lt_Some); done
            | rewrite list_lookup_insert_ne in Hw0 by done; by apply (Hw w0)]).
  - intros i. apply (Hq (S i)).
  - exfalso. by apply (Hq 0).
  - exfalso. by apply (Hq 0).
Qed.

Lemma initial_never_terminated (n : nat) (cap : Z) :
  never_terminated n (initial n cap).
Proof.
  unfold never_terminated; simpl. rewrite length_replicate.
  split_conj; try done.
  intros w Hw. apply lookup_replicate in Hw as [Hw _]. done.
Qed.

Lemma run_never_terminated (n : nat) (sched : list event) (s s' : World) :
  run sched s = Some s' -> ~ In ETerminateBegin sched ->
  never_terminated n s -> never_terminated n s'.
Proof.
  revert s; induction sched as [|e sched IH]; intros s; simpl.
  - by intros [= ->].
  - destruct (exec e s) as [s1|] eqn:He; [|done]. intros Hrun Hnot H0.
    apply (IH s1); [done | tauto |].
    apply (exec_never_terminated n e s); [done | | done].
    intros ->. apply Hnot. by left.
Qed.

(** X8.  Workers leave their loop only for [terminate]: in a run in which
    [terminate] is never called no worker thread has exited, the pool still
    has its [n] threads and [n] handles, the queue holds tasks only (no null
    task) and no task was destroyed. *)
Theorem workers_stay_until_terminate
    (n : nat) (cap : Z) (sched : list event) (s : World) :
  run sched (initial n cap) = Some s ->
  ~ In ETerminateBegin sched ->
  never_terminated n s.
Proof.
  intros Hrun Hnot.
  apply (run_never_terminated n sched (initial n cap) s Hrun Hnot).
  apply initial_never_terminated.
Qed.

Lemma workers_stay_until_terminate_witness :
  exists s,
    run three_task_prefix (initial 2 0) = Some s
    /\ never_terminated 2 s.
Proof.
  eexists. split; [vm_compute; reflexivity|].
  apply (workers_stay_until_terminate 2 0 three_task_prefix).
  - vm_compute. reflexivity.
  - unfold three_task_prefix. simpl. intros H.
    repeat (destruct H as [H|H]; [discriminate H|]). exact H.
Defined.

Lemma exec_exit_absorbing (e : event) (s s' : World) (w : nat) :
  exec e s = Some s' -> workers s !! w = Some WExit ->
  workers s' !! w = Some WExit.
Proof.
  intros He Hw. destruct e; step_cases He; simpl; try done.
  all: try (destruct (m_jobs_map s !! j); done).
  all: destruct (decide (w0 = w)) as [->|]; [congruence|].
  all: by rewrite list_lookup_insert_ne.
Qed.

Lemma exec_joined_exited (e : event) (s s' : World) :
  exec e s = Some s' -> joined_exited s -> joined_exited s'.
Proof.
  intros He Hinv t Ht.
  assert (In t (g_joins s) \/ workers s !! t = Some WExit) as [Hin|Hw].
  { destruct e; step_cases He; simpl in Ht;
      try (match type of Ht with context [m_jobs_map ?s0 !! ?j0] =>
             destruct (m_jobs_map s0 !! j0) end);
      try (by left).
    apply in_app_or in Ht as [Ht|[<-|[]]]; [by left | by right]. }
  - apply (exec_exit_absorbing e s s' t He). by apply Hinv.
  - by apply (exec_exit_absorbing e s s' t He).
Qed.

Lemma run_joined_exited (sched : list event) (s s' : World) :
  run sched s = Some s' -> joined_exited s -> joined_exited s'.
Proof.
  revert s; induction sched as [|e sched IH]; intros s; simpl.
  - by intros [= ->].
  - destruct (exec e s) as [s1|] eqn:He; [|done].
    intros Hrun Hinv. apply (IH s1 Hrun). by apply (exec_joined_exited e s).
Qed.

(** Once every worker has left its loop, no step runs or counts down a
    task. *)
Lemma exec_all_exited (e : event) (s s' : World) :
  (forall w pc, workers s !! w = Some pc -> pc = WExit) ->
  exec e s = Some s' ->
  workers s' = workers s
  /\ forall j, g_executed (job_at s' j) = g_executed (job_at s j)
       /\ g_finished (job_at s' j) = g_finished (job_at s j).
Proof.
  intros Hall He.
  destruct e; step_cases He.
  all: try (match goal with H : workers _ !! _ = Some _ |- _ =>
              apply Hall in H; discriminate H end).
  all: split; [simpl; try done; by destruct (m_jobs_map s !! j)|].
  all: intros j'; unfold job_at; simpl.
  all: rewrite ?lookup_insert; repeat case_decide; simplify_eq; simpl.
  all: try (repeat match goal with H : heap _ !! _ = _ |- _ => rewrite H in * end); simpl in *.
  all: try done.
  all: by destruct (m_jobs_map s !! j).
Qed.

Lemma run_all_exited (sched : list event) (s s' : World) :
  (forall w pc, workers s !! w = Some pc -> pc = WExit) ->
  run sched s = Some s' ->
  workers s' = workers s
  /\ forall j, g_executed (job_at s' j) = g_executed (job_at s j)
       /\ g_finished (job_at s' j) = g_finished (job_at s j).
Proof.
  revert s; induction sched as [|e sched IH]; intros s Hall; simpl.
  - by intros [= ->].
  - destruct (exec e s) as [s1|] eqn:He; [|done]. intros Hrun.
    destruct (exec_all_exited e s s1 Hall He) as [Hw Hx].
    destruct (IH s1) as [Hw' Hx']; [by rewrite Hw | done |].
    split; [congruence|]. intros j.
    destruct (Hx j) as [<- <-]. apply Hx'.
Qed.

Lemma countb_none {A} (f : A -> bool) (l : list A) :
  (forall i x, l !! i = Some x -> f x = false) -> countb f l = 0.
Proof.
  induction l as [|a l IH]; intros Hall; simpl; [done|].
  rewrite (Hall 0 a eq_refl). simpl. apply IH.
  intros i x Hx. by apply (Hall (S i)).
Qed.

(** X9.  After a [terminate] has completed ([m_tasks] is empty) every worker
    thread has exited and none is ever started again: whatever is submitted
    or pushed afterwards, no task is processed or counted down any more. *)
Theorem nothing_runs_after_terminate
    (n : nat) (cap : Z) (sched sched' : list event) (s s' : World) :
  run sched (initial n cap) = Some s ->
  m_tasks s = [] ->
  run sched' s = Some s' ->
  length (workers s) = n
  /\ (forall w, w < n -> workers s !! w = Some WExit)
  /\ workers s' = workers s
  /\ forall j, g_executed (job_at s' j) = g_executed (job_at s j)
       /\ g_finished (job_at s' j) = g_finished (job_at s j)
       /\ processing j s' = 0.
Proof.
  intros Hrun Hm Hrun'.
  destruct (run_term n _ _ _ Hrun (initial_term n cap)) as (Hlen & _ & Hj).
  assert (joined_exited s) as Hje.
  { apply (run_joined_exited _ _ _ Hrun). intros t []. }
  assert (forall w, w < n -> workers s !! w = Some WExit) as Hall.
  { intros w Hw. apply Hje.
    destruct Hj as [(Hm' & _)|(_ & -> & _)].
    - rewrite Hm in Hm'. destruct n; [lia | discriminate Hm'].
    - apply in_seq. lia. }
  assert (forall w pc, workers s !! w = Some pc -> pc = WExit) as Hall'.
  { intros w pc Hw. pose proof (lookup_lt_Some _ _ _ Hw) as Hlt.
    rewrite Hall in Hw by lia. congruence. }
  destruct (run_all_exited sched' s s' Hall' Hrun') as [Hw Hx].
  split_conj; try done.
  intros j. destruct (Hx j) as [? ?]. split_conj; try done.
  unfold processing. rewrite Hw. apply countb_none.
  intros i pc Hpc. by rewrite (Hall' i pc Hpc).
Qed.

Lemma nothing_runs_after_terminate_witness :
  exists s s',
    run [ENewJob 1; EPushJob 1; EPushTask 0; ETerminateBegin; EWorkerPop 0;
         ETerminateJoin; ETerminateEnd] (initial 1 0) = Some s
    /\ run [EPushTask 0; EPushTask 0] s = Some s'
    /\ length (m_tasks_queue s') = 2
    /\ workers s' = workers s
    /\ g_executed (job_at s' 1) = g_executed (job_at s 1).
Proof.
  do 2 eexists. split; [vm_compute; reflexivity|].
  split; [vm_compute; reflexivity|].
  split; [vm_compute; reflexivity|].
  pose proof (fun s s' => nothing_runs_after_terminate 1 0
    [ENewJob 1; EPushJob 1; EPushTask 0; ETerminateBegin; EWorkerPop 0;
     ETerminateJoin; ETerminateEnd] [EPushTask 0; EPushTask 0] s s') as H.
  edestruct H as (_ & _ & Hw & Hx);
    [vm_compute; reflexivity | vm_compute; reflexivity | vm_compute; reflexivity |].
  split; [exact Hw | exact (proj1 (Hx 1%N))].
Defined.

(** ** The flags of a job *)

Lemma countb_mono {A} (f g : A -> bool) (l : list A) :
  (forall x, f x = true -> g x = true) -> countb f l <= countb g l.
Proof.
  intros Hfg. induction l as [|a l IH]; simpl; [done|].
  destruct (f a) eqn:Hf; [rewrite (Hfg a Hf); lia | destruct (g a); lia].
Qed.

Lemma pushing_le_producing (j : JOBID) (s : World) : pushing j s <= producing j s.
Proof.
  apply countb_mono. intros [j0 pc]. unfold driver_at. simpl.
  destruct (j0 =? j)%N, pc; simpl; done.
Qed.

Lemma exec_flags (e : event) (s s' : World) :
  exec e s = Some s' -> client_ok e s = true ->
  (forall j, phase_inv s j) -> (forall j, flags_inv s j) ->
  forall j, flags_inv s' j.
Proof.
  intros He Hok Hph Hinv.
  pose proof (fun j => pushing_le_producing j s) as Hle0.
  destruct e; step_cases He.
  all: intros j'; pose proof (Hinv j') as Hj'; pose proof (Hph j') as Hp';
    pose proof (Hle0 j') as Hle;
    unfold flags_inv, phase_inv, tokens, client_ok, is_done, job_at,
      pushing, producing, in_hook, past_hook in *; simpl.
  all: rewrite ?lookup_insert; repeat case_decide; simplify_eq; simpl.
  all: try (repeat match goal with H : heap _ !! _ = _ |- _ => rewrite H in * end); simpl in *.
  all: try done.
  all: lookup_facts j'; count_facts; unfold driver_at in *; simpl in *.
  all: eqb_cases; rewrite ?N.eqb_refl in *; simpl in *.
  all: try (repeat match goal with H : heap _ !! _ = _ |- _ => rewrite H in * end); simpl in *.
  all: try (match goal with H : m_jobs_map _ !! _ = None |- _ => rewrite H in Hok end; by vm_compute in Hok).
  all: try match goal with H : m_is_done _ = true |- _ => rewrite H in *; simpl in * end.
  all: try (destruct Hj' as (HA & HB); destruct Hp' as (HC & HD & _);
            split; [|first [done | tauto | intros; apply HB; lia]]).
  all: repeat match goal with
       | H : context [Nat.b2n ?b] |- _ => is_var b; fail 1
       | H : context [Nat.b2n ?b] |- _ => destruct b eqn:?; simpl in *
       | |- context [Nat.b2n ?b] => destruct b eqn:?; simpl in *
       end.
  all: lia.
Qed.


Lemma run_flags (sched : list event) (s s' : World) :
  run sched s = Some s' -> lifecycle sched s = true ->
  accounting s -> (forall j, phase_inv s j) -> (forall j, flags_inv s j) ->
  forall j, flags_inv s' j.
Proof.
  revert s; induction sched as [|e sched IH]; intros s; simpl.
  - by intros [= ->].
  - destruct (exec e s) as [s1|] eqn:He; [|done].
    intros Hrun [Hok Hlc]%andb_true_iff Hacc Hph Hfl.
    apply (IH s1 Hrun Hlc).
    + by apply (exec_accounting e s).
    + by apply (exec_phase e s).
    + by apply (exec_flags e s).
Qed.

Lemma reachable_flags (n : nat) (cap : Z) (sched : list event) (s : World) :
  run sched (initial n cap) = Some s ->
  lifecycle sched (initial n cap) = true ->
  forall j, flags_inv s j.
Proof.
  intros Hrun Hlc.
  apply (run_flags _ _ _ Hrun Hlc); [apply initial_accounting | apply initial_phase |].
  intros j. unfold flags_inv, job_at, pushing; simpl.
  rewrite lookup_empty; simpl. split; [lia | done].
Qed.

(** A task of job [j] is appended only by a driver of [j] that is inside
    [Job::process]. *)
Lemma exec_pushed_frozen (j : JOBID) (e : event) (s s' : World) :
  exec e s = Some s' -> pushing j s = 0 ->
  g_pushed (job_at s' j) = g_pushed (job_at s j).
Proof.
  intros He Hin. destruct e; step_cases He.
  all: unfold job_at, pushing in *; simpl.
  all: rewrite ?lookup_insert; repeat case_decide; simplify_eq; simpl.
  all: try (repeat match goal with H : heap _ !! _ = _ |- _ => rewrite H in * end); simpl in *.
  all: try done.
  all: match goal with Hd : drivers _ !! _ = Some _ |- _ =>
         pose proof (countb_lookup_le (driver_at j pc_pushing) _ _ _ Hd) as Hle end.
  all: unfold driver_at in *; simpl in *.
  all: rewrite N.eqb_refl in *; simpl in *; lia.
Qed.

(** X10.  In a run that follows the lifecycle the two flags of a job are
    ordered: "done" is set only when "all tasks pushed" is set; and when
    [wait_until_all_tasks_pushed] returns, no driver of the job is inside
    [Job::process] any more, so no step pushes a task of the job; while a
    driver is inside [Job::process] the flag is clear. *)
Theorem all_tasks_pushed_flag
    (n : nat) (cap : Z) (sched : list event) (s : World) (j : JOBID) :
  run sched (initial n cap) = Some s ->
  lifecycle sched (initial n cap) = true ->
  (m_is_done (job_at s j) = true -> m_is_all_task_pushed (job_at s j) = true)
  /\ (wait_until_all_tasks_pushed j s = Some true ->
        pushing j s = 0
        /\ forall e s', exec e s = Some s' ->
             g_pushed (job_at s' j) = g_pushed (job_at s j))
  /\ (0 < pushing j s -> wait_until_all_tasks_pushed j s = Some false).
Proof.
  intros Hrun Hlc.
  destruct (reachable_inv n cap sched s Hrun Hlc) as [Hacc Hph].
  destruct (reachable_flags n cap sched s Hrun Hlc j) as [Hfl _].
  destruct (Hph j) as (Htok & Hact & _). unfold tokens in Htok.
  pose proof (pushing_le_producing j s) as Hle.
  split_conj.
  - intros Hdone. rewrite Hdone in Htok. simpl in Htok.
    destruct (decide (g_activations (job_at s j) = 0)); [lia|].
    destruct (m_is_all_task_pushed (job_at s j)); [done | simpl in Hfl; lia].
  - unfold wait_until_all_tasks_pushed, job_at in *.
    destruct (heap s !! j) as [J|] eqn:HJ; [|done]. intros [= Hf].
    rewrite Hf in Hfl. simpl in Hfl.
    assert (pushing j s = 0) as H0 by (case_decide; lia).
    split; [done|]. intros e s' He.
    pose proof (exec_pushed_frozen j e s s' He H0) as Hp.
    unfold job_at in Hp. by rewrite HJ in Hp.
  - intros Hpos.
    destruct (decide (g_activations (job_at s j) = 0)) as [|Hne]; [lia|].
    destruct (job_at_heap s j) as (J & HJ & HJ').
    { intros Heq. by rewrite Heq in Hne. }
    unfold wait_until_all_tasks_pushed. rewrite HJ. f_equal.
    rewrite HJ' in Hfl. destruct (m_is_all_task_pushed J); [simpl in Hfl; lia | done].
Qed.

Lemma all_tasks_pushed_flag_witness :
  exists s,
    run [ENewJob 1; EPushJob 1; EPushTask 0; EAllPushed 0] (initial 1 0) = Some s
    /\ wait_until_all_tasks_pushed 1 s = Some true
    /\ pushing 1 s = 0
    /\ forall e s', exec e s = Some s' ->
         g_pushed (job_at s' 1) = g_pushed (job_at s 1).
Proof.
  eexists. split; [vm_compute; reflexivity|].
  split; [vm_compute; reflexivity|].
  pose proof (fun s => all_tasks_pushed_flag 1 0
    [ENewJob 1; EPushJob 1; EPushTask 0; EAllPushed 0] s 1%N) as H.
  edestruct H as (_ & Hw & _); [vm_compute; reflexivity | vm_compute; reflexivity |].
  apply Hw. vm_compute. reflexivity.
Defined.

(** X11.  In a run that follows the lifecycle, a job that has a driver
    thread went through [push_job]: its back pointer to the engine is set, so
    [get_conveyor()] inside [Job::process] is not null. *)
Theorem driver_job_has_conveyor
    (n : nat) (cap : Z) (sched : list event) (s : World)
    (d : nat) (j : JOBID) (pc : driver_pc) :
  run sched (initial n cap) = Some s ->
  lifecycle sched (initial n cap) = true ->
  drivers s !! d = Some (j, pc) ->
  exists J, heap s !! j = Some J /\ m_conveyor J = true.
Proof.
  intros Hrun Hlc Hd.
  destruct (reachable_inv n cap sched s Hrun Hlc) as [Hacc Hph].
  destruct (reachable_flags n cap sched s Hrun Hlc j) as [_ Hcv].
  destruct (driver_job_in_heap s d j pc Hacc Hd) as [J HJ].
  exists J. split; [done|].
  destruct Hacc as [_ Hacc]. destruct (Hacc j) as (_ & _ & _ & Hs).
  pose proof (countb_lookup_le (driver_at j (fun _ => true)) _ _ _ Hd) as Hle.
  unfold driver_at in Hle. simpl in Hle. rewrite N.eqb_refl in Hle. simpl in Hle.
  unfold started, driver_at in Hs. simpl in Hs.
  rewrite <- (job_at_lookup s j J HJ). apply Hcv. lia.
Qed.

Lemma driver_job_has_conveyor_witness :
  exists s J,
    run restart_after_done (initial 1 0) = Some s
    /\ drivers s !! 1 = Some (1%N, DProcess)
    /\ heap s !! 1%N = Some J /\ m_conveyor J = true.
Proof.
  eexists.
  pose proof (fun s => driver_job_has_conveyor 1 0 restart_after_done s 1 1%N DProcess) as H.
  edestruct H as (J & HJ & Hc);
    [vm_compute; reflexivity | vm_compute; reflexivity | vm_compute; reflexivity |].
  exists J. split; [vm_compute; reflexivity|].
  split; [vm_compute; reflexivity|]. split; [exact HJ | exact Hc].
Defined.

(** ** Arithmetic of [inc_task_count] and [dec_task_count] *)

(** X12.  On a counter that is a value of the [unsigned long],
    [dec_task_count] undoes [inc_task_count] and the other way round, also
    across the wrap: counting up from [ULONG_MAX] gives 0 and counting down
    from 0 gives [ULONG_MAX].  Neither touches the flags. *)
Theorem inc_dec_task_count (J : Job) :
  (0 <= m_running_tasks J < ULONG_MODULUS)%Z ->
  get_task_count (dec_task_count (inc_task_count J)) = get_task_count J
  /\ get_task_count (inc_task_count (dec_task_count J)) = get_task_count J
  /\ (m_running_tasks J = (ULONG_MODULUS - 1)%Z ->
        get_task_count (inc_task_count J) = 0%Z)
  /\ (m_running_tasks J = 0%Z ->
        get_task_count (dec_task_count J) = (ULONG_MODULUS - 1)%Z)
  /\ m_is_done (dec_task_count (inc_task_count J)) = m_is_done J
  /\ m_is_all_task_pushed (dec_task_count (inc_task_count J))
     = m_is_all_task_pushed J.
Proof.
  intros Hr. unfold get_task_count; simpl.
  split_conj; try done.
  - rewrite Zminus_mod_idemp_l. replace (m_running_tasks J + 1 - 1)%Z
      with (m_running_tasks J) by lia. by apply Z.mod_small.
  - rewrite Zplus_mod_idemp_l. replace (m_running_tasks J - 1 + 1)%Z
      with (m_running_tasks J) by lia. by apply Z.mod_small.
  - intros ->. replace (ULONG_MODULUS - 1 + 1)%Z with ULONG_MODULUS by lia.
    apply Z_mod_same_full.
  - intros ->. reflexivity.
Qed.

Lemma inc_dec_task_count_witness :
  get_task_count (dec_task_count (inc_task_count Job_new)) = get_task_count Job_new
  /\ get_task_count (dec_task_count Job_new) = (ULONG_MODULUS - 1)%Z.
Proof.
  destruct (inc_dec_task_count Job_new) as (H1 & _ & _ & H2 & _).
  - vm_compute. split; [discriminate | reflexivity].
  - split; [exact H1 | apply H2; reflexivity].
Defined.

(** ** Every activation can complete *)

Lemma internal_lifecycle (sched : list event) (s : World) :
  forallb is_internal sched = true ->
  lifecycle sched s = true /\ ~ In ETerminateBegin sched.
Proof.
  revert s; induction sched as [|e sched IH]; intros s; simpl; [split; [done | tauto]|].
  intros [He Hr]%andb_true_iff.
  split.
  - assert (client_ok e s = true) as -> by (destruct e; simpl in He |- *; congruence).
    simpl. destruct (exec e s) as [s1|]; [|done]. by apply IH.
  - intros [Heq|Hin]; [subst e; discriminate He|]. by apply (proj2 (IH s Hr)).
Qed.

Lemma goes_refl (s : World) : goes s s.
Proof. by exists []. Qed.

Lemma goes_trans (s1 s2 s3 : World) : goes s1 s2 -> goes s2 s3 -> goes s1 s3.
Proof.
  intros (a & Ha & Hra) (b & Hb & Hrb). exists (a ++ b). split.
  - rewrite forallb_app, Ha, Hb. done.
  - by rewrite run_app, Hra.
Qed.

Lemma goes_step (e : event) (s s' : World) :
  is_internal e = true -> exec e s = Some s' -> goes s s'.
Proof.
  intros Hi He. exists [e]. simpl. rewrite Hi, He. done.
Qed.

Lemma reach_goes (n : nat) (cap : Z) (s s' : World) :
  reach n cap s -> goes s s' -> reach n cap s'.
Proof.
  intros (a & Hra & Hla & Hna) (b & Hb & Hrb).
  destruct (internal_lifecycle b s Hb) as [Hlb Hnb].
  exists (a ++ b). split_conj.
  - by rewrite run_app, Hra.
  - by rewrite (lifecycle_app _ _ _ _ Hra), Hla, Hlb.
  - intros [H|H]%in_app_or; tauto.
Qed.

Lemma reach_facts (n : nat) (cap : Z) (s : World) :
  reach n cap s ->
  accounting s /\ (forall j, phase_inv s j) /\ never_terminated n s
  /\ cap_inv cap s.
Proof.
  intros (a & Hra & Hla & Hna).
  destruct (reachable_inv n cap a s Hra Hla) as [Hacc Hph].
  refine (conj Hacc (conj Hph (conj _ _))).
  - apply (run_never_terminated n a _ _ Hra Hna), initial_never_terminated.
  - apply (run_cap cap _ _ _ Hra), initial_cap.
Qed.

Lemma worker_frame_refl (w : nat) (s : World) : worker_frame w s s.
Proof. by split_conj. Qed.

Lemma worker_frame_trans (w : nat) (s1 s2 s3 : World) :
  worker_frame w s1 s2 -> worker_frame w s2 s3 -> worker_frame w s1 s3.
Proof.
  intros (Ha & Hb & Hc & Hf1) (Ha' & Hb' & Hc' & Hf2).
  unfold worker_frame. split_conj; try congruence.
  intros w' Hw'. by rewrite Hf2, Hf1.
Qed.

Lemma worker_frame_set (w : nat) (pc : worker_pc) (s s' : World) :
  drivers s' = drivers s -> m_max_tasks s' = m_max_tasks s ->
  workers s' = <[w := pc]> (workers s) ->
  worker_frame w s s'.
Proof.
  intros Hd Hm Hw. unfold worker_frame. split_conj; try done.
  - by rewrite Hw, length_insert.
  - intros w' Hne. rewrite Hw. by apply list_lookup_insert_ne.
Qed.

(** A worker that holds a task finishes it and is back at the top of its
    loop. *)
Lemma worker_to_wait (n : nat) (cap : Z) (s : World) (w : nat) (pc : worker_pc) :
  reach n cap s -> workers s !! w = Some pc ->
  exists s', goes s s' /\ workers s' !! w = Some WWait
    /\ m_tasks_queue s' = m_tasks_queue s /\ worker_frame w s s'.
Proof.
  intros Hr Hw.
  destruct (reach_facts n cap s Hr) as (Hacc & _ & Hnt & _).
  pose proof (lookup_lt_Some _ _ _ Hw) as Hlt.
  assert (forall t j, accounting t -> workers t !! w = Some (WDec j) ->
            exists s', goes t s' /\ workers s' !! w = Some WWait
              /\ m_tasks_queue s' = m_tasks_queue t /\ worker_frame w t s') as Hdec.
  { intros t j Ht Hwt.
    destruct (worker_job_in_heap t w j Ht) as [J HJ]; [by right|].
    exists (with_heap (<[j := dec_task_count J]> (heap t)) (set_worker w WWait t)).
    split_conj; try done.
    - apply (goes_step (EWorkerDec w)); [done|].
      simpl. rewrite Hwt. simpl. unfold on_job. simpl. by rewrite HJ.
    - simpl. apply list_lookup_insert_eq. by eapply lookup_lt_Some.
    - by apply (worker_frame_set w WWait). }
  destruct pc as [|j|j|].
  - exists s. split_conj; try done; try apply goes_refl; apply worker_frame_refl.
  - destruct (worker_job_in_heap s w j Hacc) as [J HJ]; [by left|].
    assert (exec (EWorkerProcess w) s
            = Some (with_heap (<[j := task_processed J]> (heap s))
                      (set_worker w (WDec j) s))) as He.
    { simpl. rewrite Hw. simpl. unfold on_job. simpl. by rewrite HJ. }
    destruct (Hdec _ j (exec_accounting _ _ _ He Hacc)) as (s' & Hg & Hw' & Hq & Hf).
    { simpl. by apply list_lookup_insert_eq. }
    exists s'. split_conj; try done.
    + apply (goes_trans _ _ _ (goes_step (EWorkerProcess w) _ _ eq_refl He) Hg).
    + eapply worker_frame_trans; [|exact Hf].
      by apply (worker_frame_set w (WDec j)).
  - by apply (Hdec s j).
  - destruct Hnt as (_ & _ & _ & _ & _ & _ & Hex). by destruct (Hex w).
Qed.

(** A waiting worker can empty the queue. *)
Lemma worker_drains_queue (n : nat) (cap : Z) (w : nat) (k : nat) :
  forall s, length (m_tasks_queue s) = k ->
    reach n cap s -> workers s !! w = Some WWait ->
    exists s', goes s s' /\ m_tasks_queue s' = []
      /\ workers s' !! w = Some WWait /\ worker_frame w s s'.
Proof.
  induction k as [|k IH]; intros s Hlen Hr Hw.
  - exists s. split_conj; try done; try apply goes_refl;
      try apply worker_frame_refl; by apply nil_length_inv.
  - destruct (reach_facts n cap s Hr) as (_ & _ & Hnt & _).
    destruct (m_tasks_queue s) as [|[j|] q] eqn:Hq; [done | |].
    2:{ destruct Hnt as (_ & _ & _ & _ & _ & Hnone & _).
        exfalso. apply (Hnone 0). by rewrite Hq. }
    assert (exec (EWorkerPop w) s
            = Some (set_worker w (WProcess j) (with_queue q s))) as He.
    { simpl. rewrite Hw. simpl. by rewrite Hq. }
    pose proof (goes_step (EWorkerPop w) _ _ eq_refl He) as Hg1.
    pose proof (lookup_lt_Some _ _ _ Hw) as Hlt.
    destruct (worker_to_wait n cap _ w (WProcess j) (reach_goes _ _ _ _ Hr Hg1))
      as (s2 & Hg2 & Hw2 & Hq2 & Hf2).
    { simpl. by apply list_lookup_insert_eq. }
    destruct (IH s2) as (s' & Hg3 & Hq3 & Hw3 & Hf3); try done.
    { rewrite Hq2. simpl. simpl in Hlen. lia. }
    { apply (reach_goes _ _ _ _ Hr). by apply (goes_trans _ _ _ Hg1). }
    exists s'. split_conj; try done.
    + apply (goes_trans _ _ _ Hg1), (goes_trans _ _ _ Hg2), Hg3.
    + eapply worker_frame_trans;
        [|eapply worker_frame_trans; [exact Hf2 | exact Hf3]].
      by apply (worker_frame_set w (WProcess j)).
Qed.

(** The first [k] workers can all be brought to the top of their loop. *)
Lemma workers_to_wait (n : nat) (cap : Z) (k : nat) :
  forall s, reach n cap s -> k <= length (workers s) ->
    exists s', goes s s'
      /\ (forall w, w < k -> workers s' !! w = Some WWait)
      /\ m_tasks_queue s' = m_tasks_queue s
      /\ drivers s' = drivers s /\ m_max_tasks s' = m_max_tasks s
      /\ length (workers s') = length (workers s).
Proof.
  induction k as [|k IH]; intros s Hr Hk.
  - exists s. split_conj; try done; try apply goes_refl; lia.
  - destruct (IH s Hr) as (s1 & Hg1 & Hw1 & Hq1 & Hd1 & Hm1 & Hl1); [lia|].
    destruct (lookup_lt_is_Some_2 (workers s1) k) as [pc Hpc]; [lia|].
    destruct (worker_to_wait n cap s1 k pc (reach_goes _ _ _ _ Hr Hg1) Hpc)
      as (s2 & Hg2 & Hw2 & Hq2 & (Hd2 & Hm2 & Hl2 & Hf2)).
    exists s2. split_conj; try congruence.
    + by apply (goes_trans _ _ _ Hg1).
    + intros w Hw. destruct (decide (w = k)) as [->|]; [done|].
      rewrite Hf2 by done. apply Hw1. lia.
Qed.

(** With at least one worker, the engine can always come to rest: the queue
    empty and every worker waiting at the top of its loop; the drivers stay
    where they are. *)
Lemma engine_comes_to_rest (n : nat) (cap : Z) (s : World) :
  reach n cap s -> 0 < n ->
  exists s', goes s s' /\ quiescent s'
    /\ drivers s' = drivers s /\ m_max_tasks s' = m_max_tasks s.
Proof.
  intros Hr Hn.
  destruct (reach_facts n cap s Hr) as (_ & _ & Hnt & _).
  destruct Hnt as (_ & _ & _ & _ & Hlen & _).
  destruct (workers_to_wait n cap n s Hr) as (s1 & Hg1 & Hw1 & Hq1 & Hd1 & Hm1 & Hl1);
    [lia|].
  destruct (worker_drains_queue n cap 0 _ s1 eq_refl (reach_goes _ _ _ _ Hr Hg1))
    as (s2 & Hg2 & Hq2 & Hw2 & (Hd2 & Hm2 & Hl2 & Hf2)); [apply Hw1; lia|].
  exists s2. split_conj; try congruence.
  - by apply (goes_trans _ _ _ Hg1).
  - split; [congruence|].
    intros w pc Hpc. pose proof (lookup_lt_Some _ _ _ Hpc) as Hlt.
    destruct (decide (w = 0)) as [->|]; [congruence|].
    rewrite Hf2, Hw1 in Hpc by lia. congruence.
Qed.

(** At rest, with no task destroyed, every counter is zero. *)
Lemma quiescent_counter_zero (n : nat) (cap : Z) (s : World) (j : JOBID) :
  reach n cap s -> quiescent s -> m_running_tasks (job_at s j) = 0%Z.
Proof.
  intros Hr [Hq Hw].
  destruct (reach_facts n cap s Hr) as ([_ Hacc] & _ & Hnt & _).
  destruct Hnt as (_ & _ & Hdis & _).
  destruct (Hacc j) as (Hc & Hx & Hp & _).
  unfold queued, processing, uncounted, discarded in *.
  rewrite Hq, Hdis in Hp. simpl in Hp.
  rewrite countb_none in Hx by (intros i pc Hpc; by rewrite (Hw i pc Hpc)).
  rewrite countb_none in Hp by (intros i pc Hpc; by rewrite (Hw i pc Hpc)).
  rewrite Hc. replace (g_finished (job_at s j)) with (g_pushed (job_at s j)) by lia.
  by rewrite Z.sub_diag.
Qed.

(** A driver blocks in [push_task] only when the queue is bounded. *)
Lemma exec_pushwait (e : event) (s s' : World) :
  exec e s = Some s' -> pushwait_inv s -> pushwait_inv s'.
Proof.
  intros He Hinv. unfold pushwait_inv in *.
  assert (push_task_full s = true -> m_max_tasks s <> 0%Z) as Hfull.
  { unfold push_task_full. intros Hf Hz. rewrite Hz in Hf. done. }
  destruct e; step_cases He; intros d' j' Hd'; simpl in *.
  all: try (by eapply Hinv).
  all: try (apply lookup_app_Some in Hd' as [Hd'|[_ Hd']];
            [by eapply Hinv | by destruct (d' - _) as [|[|?]]]).
  all: try (match type of Hd' with
            | <[?d0 := _]> _ !! _ = _ =>
                destruct (decide (d' = d0)) as [->|Hne];
                [rewrite list_lookup_insert_eq in Hd' by (by eapply lookup_lt_Some);
                 simplify_eq; try by apply Hfull
                |rewrite list_lookup_insert_ne in Hd' by done; by eapply Hinv]
            end).
Qed.

Lemma reach_pushwait (n : nat) (cap : Z) (s : World) :
  reach n cap s -> pushwait_inv s.
Proof.
  intros (a & Hra & _). clear -Hra.
  assert (pushwait_inv (initial n cap)) as Hi by (intros d j Hd; done).
  revert Hra Hi. generalize (initial n cap).
  induction a as [|e a IH]; intros s0; simpl.
  - by intros [= ->].
  - destruct (exec e s0) as [s1|] eqn:He; [|done].
    intros Hrun Hinv. apply (IH s1 Hrun). by apply (exec_pushwait e s0).
Qed.

(** A driver that has seen the counter at zero runs the completion hook,
    sets the done flag and exits. *)
Lemma driver_sets_done (t : World) (d : nat) (j : JOBID) :
  accounting t -> drivers t !! d = Some (j, DSetDone) ->
  exists s', goes t s' /\ drivers s' !! d = Some (j, DExit)
    /\ wait_job_done j s' = Some true.
Proof.
  intros Hacc Hd. destruct (driver_job_in_heap t d j _ Hacc Hd) as [J HJ].
  exists (with_heap (<[j := set_is_done J]> (heap t)) (set_driver d j DExit t)).
  split_conj.
  - apply (goes_step (ESetDone d)); [done|].
    simpl. rewrite Hd. simpl. unfold on_job. simpl. by rewrite HJ.
  - simpl. apply list_lookup_insert_eq. by eapply lookup_lt_Some.
  - unfold wait_job_done. simpl. rewrite lookup_insert_eq.
    by destruct (j =? nullptr)%N.
Qed.

Lemma driver_runs_hook (t : World) (d : nat) (j : JOBID) :
  accounting t -> drivers t !! d = Some (j, DAfterDone) ->
  exists s', goes t s' /\ drivers s' !! d = Some (j, DExit)
    /\ wait_job_done j s' = Some true.
Proof.
  intros Hacc Hd. destruct (driver_job_in_heap t d j _ Hacc Hd) as [J HJ].
  assert (exec (EAfterDone d) t
          = Some (with_heap (<[j := process_after_done J]> (heap t))
                    (set_driver d j DSetDone t))) as He.
  { simpl. rewrite Hd. simpl. unfold on_job. simpl. by rewrite HJ. }
  destruct (driver_sets_done _ d j (exec_accounting _ _ _ He Hacc))
    as (s' & Hg & Hd' & Hdone).
  { simpl. apply list_lookup_insert_eq. by eapply lookup_lt_Some. }
  exists s'. split_conj; try done.
  by apply (goes_trans _ _ _ (goes_step (EAfterDone d) _ _ eq_refl He)).
Qed.

(** Once the engine is at rest, a driver past its production loop
    completes its job. *)
Lemma driver_finishes_at_rest (n : nat) (cap : Z) (s : World) (d : nat)
    (j : JOBID) (pc : driver_pc) :
  reach n cap s -> quiescent s ->
  drivers s !! d = Some (j, pc) ->
  pc = DWaitTasks \/ pc = DAfterDone \/ pc = DSetDone ->
  exists s', goes s s' /\ drivers s' !! d = Some (j, DExit)
    /\ wait_job_done j s' = Some true.
Proof.
  intros Hr Hq Hd Hpc.
  destruct (reach_facts n cap s Hr) as (Hacc & _).
  destruct Hpc as [->|[->| ->]].
  - destruct (driver_job_in_heap s d j _ Hacc Hd) as [J HJ].
    pose proof (quiescent_counter_zero n cap s j Hr Hq) as Hz.
    rewrite (job_at_lookup s j J HJ) in Hz.
    assert (exec (EWaitTasks d) s = Some (set_driver d j DAfterDone s)) as He.
    { simpl. rewrite Hd. simpl. rewrite HJ, Hz. done. }
    destruct (driver_runs_hook _ d j (exec_accounting _ _ _ He Hacc))
      as (s' & Hg & Hd' & Hdone).
    { simpl. apply list_lookup_insert_eq. by eapply lookup_lt_Some. }
    exists s'. split_conj; try done.
    by apply (goes_trans _ _ _ (goes_step (EWaitTasks d) _ _ eq_refl He)).
  - by apply driver_runs_hook.
  - by apply driver_sets_done.
Qed.

(** A driver whose [process()] has returned completes its job. *)
Lemma driver_finishes_after_process (n : nat) (cap : Z) (s : World) (d : nat)
    (j : JOBID) :
  reach n cap s -> 0 < n ->
  drivers s !! d = Some (j, DProcess) ->
  exists s', goes s s' /\ drivers s' !! d = Some (j, DExit)
    /\ wait_job_done j s' = Some true.
Proof.
  intros Hr Hn Hd.
  destruct (reach_facts n cap s Hr) as (Hacc & _).
  destruct (driver_job_in_heap s d j _ Hacc Hd) as [J HJ].
  assert (exec (EAllPushed d) s
          = Some (with_heap (<[j := set_all_tasks_pushed J]> (heap s))
                    (set_driver d j DWaitTasks s))) as He.
  { simpl. rewrite Hd. simpl. unfold on_job. simpl. by rewrite HJ. }
  pose proof (goes_step (EAllPushed d) _ _ eq_refl He) as Hg1.
  pose proof (reach_goes _ _ _ _ Hr Hg1) as Hr1.
  destruct (engine_comes_to_rest n cap _ Hr1 Hn) as (s2 & Hg2 & Hq2 & Hd2 & _).
  destruct (driver_finishes_at_rest n cap s2 d j DWaitTasks)
    as (s' & Hg3 & Hd3 & Hdone); try done.
  { by apply (reach_goes _ _ _ _ Hr1). }
  { rewrite Hd2. simpl. apply list_lookup_insert_eq. by eapply lookup_lt_Some. }
  { by left. }
  exists s'. split_conj; try done.
  apply (goes_trans _ _ _ Hg1), (goes_trans _ _ _ Hg2), Hg3.
Qed.

(** X13.  Every activation can complete.  In a state reached under the
    documented lifecycle with no [terminate] call, at least one worker and a
    queue bound that is not negative, take any driver thread that has not
    exited.  Then the engine's own threads, with no further call by any
    client and no further task produced (a [push_task] blocked on the full
    queue completes its push), can bring that driver to its exit with the
    job's done flag set, so that [wait_job_done] returns: no reachable state
    is a deadlock for a job whose [process()] returns. *)
Theorem job_can_complete (n : nat) (cap : Z) (sched : list event) (s : World)
    (d : nat) (j : JOBID) (pc : driver_pc) :
  run sched (initial n cap) = Some s ->
  lifecycle sched (initial n cap) = true ->
  ~ In ETerminateBegin sched ->
  0 < n -> (0 <= cap)%Z ->
  drivers s !! d = Some (j, pc) -> pc <> DExit ->
  exists sched' s',
    forallb is_internal sched' = true
    /\ run sched' s = Some s'
    /\ drivers s' !! d = Some (j, DExit)
    /\ wait_job_done j s' = Some true.
Proof.
  intros Hrun Hlife Hnt Hn Hcap Hd Hpc.
  assert (reach n cap s) as Hr by (by exists sched).
  assert (exists s', goes s s' /\ drivers s' !! d = Some (j, DExit)
            /\ wait_job_done j s' = Some true) as (s' & (a & Ha & Hra) & Hd' & Hdone).
  2:{ by exists a, s'. }
  destruct (decide (pc = DProcess)) as [->|Hnp];
    [by apply (driver_finishes_after_process n cap)|].
  destruct (engine_comes_to_rest n cap s Hr Hn) as (s1 & Hg1 & Hq1 & Hd1 & Hm1).
  pose proof (reach_goes _ _ _ _ Hr Hg1) as Hr1.
  destruct (decide (pc = DPushWait)) as [->|Hnw].
  - pose proof (reach_pushwait n cap s Hr d j Hd) as Hmax.
    destruct (reach_facts n cap s Hr) as (_ & _ & _ & [Hc _]).
    destruct (reach_facts n cap s1 Hr1) as (Hacc1 & _).
    rewrite <- Hd1 in Hd.
    destruct (driver_job_in_heap s1 d j _ Hacc1 Hd) as [J HJ].
    assert (exec (EPushWake d) s1
            = Some (with_heap (<[j := inc_task_count J]> (heap s1))
                      (with_queue (m_tasks_queue s1 ++ [Some j])
                         (set_driver d j DProcess s1)))) as He.
    { destruct Hq1 as [Hqe _]. simpl. rewrite Hd. simpl.
      unfold push_task_room, push_task_append, on_job. simpl.
      rewrite HJ, Hqe. simpl.
      destruct (_ <? m_max_tasks s1)%Z eqn:Hlt; [done|].
      exfalso. apply Z.ltb_ge in Hlt. lia. }
    pose proof (goes_step (EPushWake d) _ _ eq_refl He) as Hg2.
    destruct (driver_finishes_after_process n cap _ d j (reach_goes _ _ _ _ Hr1 Hg2) Hn)
      as (s' & Hg3 & Hd3 & Hdone).
    { simpl. apply list_lookup_insert_eq. by eapply lookup_lt_Some. }
    exists s'. split_conj; try done.
    apply (goes_trans _ _ _ Hg1), (goes_trans _ _ _ Hg2), Hg3.
  - destruct (driver_finishes_at_rest n cap s1 d j pc Hr1 Hq1)
      as (s' & Hg3 & Hd3 & Hdone).
    { by rewrite Hd1. }
    { destruct pc; tauto. }
    exists s'. split_conj; try done.
    by apply (goes_trans _ _ _ Hg1).
Qed.

Lemma job_can_complete_witness :
  exists s,
    run blocked_push_schedule (initial 2 1) = Some s
    /\ drivers s !! 0 = Some (1%N, DPushWait)
    /\ exists sched' s',
         forallb is_internal sched' = true
         /\ run sched' s = Some s'
         /\ drivers s' !! 0 = Some (1%N, DExit)
         /\ wait_job_done 1 s' = Some true.
Proof.
  eexists. split; [vm_compute; reflexivity|].
  split; [vm_compute; reflexivity|].
  apply (job_can_complete 2 1 blocked_push_schedule _ 0 1%N DPushWait).
  - vm_compute. reflexivity.
  - vm_compute. reflexivity.
  - intros Hin. vm_compute in Hin. intuition discriminate.
  - lia.
  - lia.
  - vm_compute. reflexivity.
  - discriminate.
Defined.

(** ** A done job is left alone *)

(** No step other than [restart_job] on the job itself touches the object
    of a done job. *)
Lemma exec_done_inert (j : JOBID) (e : event) (s s' : World) :
  exec e s = Some s' -> client_ok e s = true ->
  e <> ERestartJob j ->
  m_is_done (job_at s j) = true ->
  m_conveyor (job_at s j) = true ->
  0 < g_activations (job_at s j) ->
  queued j s = 0 -> processing j s = 0 -> uncounted j s = 0 ->
  producing j s = 0 -> in_hook j s = 0 -> past_hook j s = 0 ->
  job_at s' j = job_at s j.
Proof.
  intros He Hok Hne Hdone Hcv Hact Hq Hp Hu Hpr Hih Hph.
  destruct e; step_cases He.
  all: unfold job_at, queued, processing, uncounted, producing, in_hook, past_hook in *;
    simpl in *.
  all: rewrite ?lookup_insert; repeat case_decide; simplify_eq; simpl.
  all: try (repeat match goal with H : heap _ !! _ = _ |- _ => rewrite H in * end);
    simpl in *.
  all: try done.
  all: try (lookup_facts j; unfold driver_at in *; simpl in *;
            rewrite ?N.eqb_refl in *; simpl in *; lia).
  all: try by apply set_conveyor_id.
  all: exfalso.
  - match goal with
    | HJ : heap ?s !! ?j = Some ?J, H' : context [job_at ?s ?j] |- _ =>
        rewrite (job_at_lookup s j J HJ) in H'; lia
    end.
  - rewrite orb_false_r in Hok. apply bool_decide_eq_true in Hok.
    destruct Hok as [p Hp']. congruence.
Qed.

Lemma run_done_inert (j : JOBID) (sched : list event) (s s' : World) :
  run sched s = Some s' -> lifecycle sched s = true ->
  ~ In (ERestartJob j) sched ->
  accounting s -> (forall j, phase_inv s j) -> (forall j, flags_inv s j) ->
  m_is_done (job_at s j) = true ->
  (Z.of_nat (g_pushed (job_at s j)) < ULONG_MODULUS)%Z ->
  job_at s' j = job_at s j.
Proof.
  revert s; induction sched as [|e sched IH]; intros s; simpl.
  - by intros [= ->].
  - destruct (exec e s) as [s1|] eqn:He; [|done].
    intros Hrun [Hok Hlc]%andb_true_iff Hni Hacc Hph Hfl Hdone Hlt.
    destruct (done_job_complete s j Hacc (Hph j) Hdone Hlt)
      as (_ & _ & Hq & Hp & Hu & _).
    destruct (done_job_hooks s j (Hph j) Hdone) as (_ & Hact & Hpr & Hih & Hpa).
    destruct (Hfl j) as [_ Hcv].
    assert (job_at s1 j = job_at s j) as Heq.
    { apply (exec_done_inert j e s s1); try done; [|apply Hcv; lia].
      intros ->. apply Hni. by left. }
    rewrite <- Heq. apply IH; try done.
    + intros Hin. apply Hni. by right.
    + by apply (exec_accounting e s).
    + by apply (exec_phase e s).
    + by apply (exec_flags e s).
    + by rewrite Heq.
    + by rewrite Heq.
Qed.

(** X14.  A done job is left alone.  From a state reached under the
    documented lifecycle in which [wait_job_done] returns for a job, let the
    clients and the engine do anything that follows the lifecycle except
    [restart_job] on that job: other jobs are submitted, run and restarted,
    the handle is submitted again or popped, [terminate] runs.  Then the job
    object is exactly as it was (flags, counter and the whole history), so
    [wait_job_done] still returns and [check_job_is_done] answers [true]:
    [reset], called by [restart_job] only, is the one place that clears the
    done flag. *)
Theorem done_job_untouched_until_restart (n : nat) (cap : Z)
    (sched1 sched2 : list event) (s s' : World) (j : JOBID) :
  run sched1 (initial n cap) = Some s ->
  lifecycle sched1 (initial n cap) = true ->
  run sched2 s = Some s' ->
  lifecycle sched2 s = true ->
  ~ In (ERestartJob j) sched2 ->
  j <> nullptr ->
  wait_job_done j s = Some true ->
  (Z.of_nat (g_pushed (job_at s j)) < ULONG_MODULUS)%Z ->
  job_at s' j = job_at s j
  /\ wait_job_done j s' = Some true
  /\ check_job_is_done j s' = Some true.
Proof.
  intros Hrun1 Hlc1 Hrun2 Hlc2 Hni Hj Hwait Hlt.
  destruct (reachable_inv n cap sched1 s Hrun1 Hlc1) as [Hacc Hph].
  pose proof (reachable_flags n cap sched1 s Hrun1 Hlc1) as Hfl.
  pose proof (wait_job_done_true j s Hj Hwait) as Hdone.
  pose proof (run_done_inert j sched2 s s' Hrun2 Hlc2 Hni Hacc Hph Hfl Hdone Hlt) as Heq.
  destruct (done_job_complete s j Hacc (Hph j) Hdone Hlt) as (Hfin & _).
  destruct Hacc as [_ Hacc]. destruct (Hacc j) as (Hc & _).
  destruct (job_at_heap s' j) as (J & HJ & HJ').
  { rewrite Heq. intros Hnew. by rewrite Hnew in Hdone. }
  split; [done|].
  unfold wait_job_done, check_job_is_done, is_done, get_task_count.
  destruct (N.eqb_spec j nullptr); [done|].
  rewrite HJ, <- HJ', Heq, Hdone, Hc, Hfin, Z.sub_diag. done.
Qed.

Lemma done_job_untouched_until_restart_witness :
  exists s s',
    run one_task_done (initial 1 0) = Some s
    /\ run other_job_schedule s = Some s'
    /\ job_at s' 1 = job_at s 1
    /\ wait_job_done 1 s' = Some true
    /\ check_job_is_done 1 s' = Some true.
Proof.
  do 2 eexists. split; [vm_compute; reflexivity|].
  split; [vm_compute; reflexivity|].
  apply (done_job_untouched_until_restart 1 0 one_task_done other_job_schedule).
  - vm_compute. reflexivity.
  - vm_compute. reflexivity.
  - vm_compute. reflexivity.
  - vm_compute. reflexivity.
  - intros Hin. vm_compute in Hin. intuition discriminate.
  - discriminate.
  - vm_compute. reflexivity.
  - vm_compute. reflexivity.
Defined.
